(** * Kernel-sparsity sensitivity analysis and pruning schedules

    A shallow embedding of
    [neuralmagicML/tensorflow/recal/sensitivity_ks.py] (the approximate and
    the one-shot sensitivity sweeps) and of the pruning-modifier life cycle
    exercised by [tests/sparseml/pytorch/optim/test_modifier_pruning.py].

    Conventions.  Python floats are idealised as exact rationals ([Q]), with
    one extra value for numpy's [nan]; Python ints are [Z]; exceptions are
    the left summand of a sum type.  A [tf.Session] is an abstract engine
    whose state is threaded explicitly.  The epochs of the life-cycle loop
    whose assertions are read off in [GmChecks] are binary64 floats, added
    and divided as Python does. *)

From Stdlib Require Import ZArith QArith Qround Qabs Lqa Lia.
From Stdlib Require Import List String Bool Sorted Permutation.
From Stdlib Require PrimFloat SpecFloat FloatOps.
From stdpp Require Import gmap strings.
Import ListNotations.

Local Open Scope Z_scope.

(** ** Python and numpy primitives used by the source *)

Module Py.

(** Exceptions the embedded code can raise. *)
Inductive exn : Type :=
| TypeError
| IndexError
| EngineError (msg : string)
| ConfigError
| ParameterNotFoundError
| IllegalStateError
| KeyError.

(** A float as numpy hands it back: a number, or [nan]. *)
Inductive pyfloat : Type :=
| PyNum (q : Q)
| PyNaN.


Definition len {A} (l : list A) : Z := Z.of_nat (List.length l).

(** [round(x)] on a float: nearest integer, ties to the even one. *)
Definition py_round (x : Q) : Z :=
  let f := Qfloor x in
  match ((x - inject_Z f) ?= (1 # 2))%Q with
  | Lt => f
  | Gt => f + 1
  | Eq => if Z.even f then f else f + 1
  end.

(** [range(n)]: empty when [n <= 0]. *)
Definition py_range (n : Z) : list Z :=
  List.map Z.of_nat (List.seq 0 (Z.to_nat n)).

(** [l[i]] with Python's negative indices; [None] stands for IndexError. *)
Definition py_getitem {A} (l : list A) (i : Z) : option A :=
  if (0 <=? i) && (i <? len l) then nth_error l (Z.to_nat i)
  else if (- len l <=? i) && (i <? 0) then nth_error l (Z.to_nat (i + len l))
  else None.

(** A slice bound brought into [[0, len]] as Python does for [l[a:b]]. *)
Definition py_clip {A} (l : list A) (i : Z) : Z :=
  if i <? 0 then Z.max (i + len l) 0 else Z.min i (len l).

(** [l[lo:hi]]; never raises. *)
Definition py_slice {A} (l : list A) (lo hi : Z) : list A :=
  let a := py_clip l lo in
  let b := py_clip l hi in
  firstn (Z.to_nat (b - a)) (skipn (Z.to_nat a) l).

(** [a < b] on floats. *)
Definition Qlt_bool (a b : Q) : bool := negb (Qle_bool b a).

(** [enumerate(l)]. *)
Definition enumerate {A} (l : list A) : list (nat * A) :=
  List.combine (List.seq 0 (List.length l)) l.

End Py.

Module Np.
Import Py.

(** [numpy.abs] on a flattened array. *)
Definition abs (a : list Q) : list Q := List.map Qabs a.

Fixpoint insert (x : Q) (l : list Q) : list Q :=
  match l with
  | [] => [x]
  | y :: t => if Qle_bool x y then x :: y :: t else y :: insert x t
  end.

(** [numpy.sort]: ascending. *)
Fixpoint sort (a : list Q) : list Q :=
  match a with
  | [] => []
  | x :: t => insert x (sort t)
  end.

Definition sum (a : list Q) : Q := List.fold_right Qplus 0%Q a.

(** [a.mean().item()]: [nan] on an empty array (numpy only warns). *)
Definition mean (a : list Q) : pyfloat :=
  match a with
  | [] => PyNaN
  | _ => PyNum (sum a / inject_Z (len a))%Q
  end.

End Np.

(** ** The sensitivity report *)

Module Analysis.
Import Py.

(** Modelled from the spec: the class [KSLossSensitivityAnalysis] is imported
    from [neuralmagicML.recal], which is not among the sources.  The spec
    describes it as an append-only ordered list of records
    (layer id, layer name, parameter index, sparsity, loss or magnitude,
    baseline flag); [add_result] appends one record. *)
Record KSResult : Type := {
  res_id : option string;
  res_name : string;
  res_index : nat;
  res_sparsity : Q;
  res_value : pyfloat;
  res_baseline : bool
}.

Abbreviation KSLossSensitivityAnalysis := (list KSResult) (only parsing).

Definition add_result (analysis : KSLossSensitivityAnalysis)
    (id_ : option string) (name : string) (index : nat) (sparsity : Q)
    (value : pyfloat) (baseline : bool) : KSLossSensitivityAnalysis :=
  analysis ++ [{| res_id := id_; res_name := name; res_index := index;
                  res_sparsity := sparsity; res_value := value;
                  res_baseline := baseline |}].

End Analysis.

(** ** [approx_ks_loss_sensitivity] *)

Module Approx.
Import Py Analysis.

(** The literal [1e-9]. *)
Definition eps : Q := 1 # 1000000000.

(** [val_index = round(sparsity * len(values))], then clamped by
    [if val_index >= len(values): val_index = len(values) - 1]. *)
Definition cut_index (n : Z) (sparsity : Q) : Z :=
  let val_index := py_round (sparsity * inject_Z n) in
  if val_index >=? n then n - 1 else val_index.

(** The conditional expression that computes [avg]; [prev_index] is still
    [None] when no level has been processed, and comparing an int with
    [None] raises TypeError. *)
Definition level_avg (values : list Q) (prev_index : option Z)
    (val_index : Z) : exn + pyfloat :=
  match prev_index with
  | None => inl TypeError
  | Some prev =>
      if val_index >? prev
      then inr (Np.mean (py_slice values prev val_index))
      else match py_getitem values val_index with
           | Some v => inr (PyNum v)
           | None => inl IndexError
           end
  end.

(** One iteration of [for sparsity in sparsity_levels], on the loop state
    ([prev_index], [analysis]). *)
Definition level_step (op_name : string) (op_index : nat) (values : list Q)
    (st : option Z * KSLossSensitivityAnalysis) (sparsity : Q)
    : exn + (option Z * KSLossSensitivityAnalysis) :=
  let '(prev_index, analysis) := st in
  let val_index := cut_index (len values) sparsity in
  if Qle_bool sparsity eps then
    inr (Some (val_index + 1),
         add_result analysis None op_name op_index 0 (PyNum 0) true)
  else
    match level_avg values prev_index val_index with
    | inl e => inl e
    | inr avg =>
        inr (Some (val_index + 1),
             add_result analysis None op_name op_index sparsity avg false)
    end.

Fixpoint levels_loop (op_name : string) (op_index : nat) (values : list Q)
    (sparsity_levels : list Q) (st : option Z * KSLossSensitivityAnalysis)
    : exn + (option Z * KSLossSensitivityAnalysis) :=
  match sparsity_levels with
  | [] => inr st
  | sparsity :: rest =>
      match level_step op_name op_index values st sparsity with
      | inl e => inl e
      | inr st' => levels_loop op_name op_index values rest st'
      end
  end.

(** [values = numpy.sort(numpy.abs(weight.reshape(-1)))]; a weight is given
    by its flattened values. *)
Definition sorted_magnitudes (weight : list Q) : list Q :=
  Np.sort (Np.abs weight).

(** The body of [for op_index, (_, op_tens) in enumerate(...)]: one
    prunable parameter, [prev_index = None] at its start. *)
Definition approx_param (analysis : KSLossSensitivityAnalysis)
    (op_index : nat) (op_name : string) (weight : list Q)
    (sparsity_levels : list Q) : exn + KSLossSensitivityAnalysis :=
  match levels_loop op_name op_index (sorted_magnitudes weight)
          sparsity_levels (None, analysis) with
  | inl e => inl e
  | inr (_, analysis') => inr analysis'
  end.

Fixpoint params_loop (ops : list (nat * (string * list Q)))
    (sparsity_levels : list Q) (analysis : KSLossSensitivityAnalysis)
    : exn + KSLossSensitivityAnalysis :=
  match ops with
  | [] => inr analysis
  | (op_index, (op_name, weight)) :: rest =>
      match approx_param analysis op_index op_name weight sparsity_levels with
      | inl e => inl e
      | inr analysis' => params_loop rest sparsity_levels analysis'
      end
  end.

(** [prunable] lists, for each prunable op of the graph, the name of its
    input tensor and the value [sess.run(op_tens)] returns for it. *)
Definition approx_ks_loss_sensitivity (prunable : list (string * list Q))
    (sparsity_levels : list Q) : exn + KSLossSensitivityAnalysis :=
  params_loop (enumerate prunable) sparsity_levels [].

(** *** The report in closed form

    What the loop files for one parameter, written level by level: the
    entry of a level depends on the level before it only. *)

Definition baseline_entry (op_name : string) (op_index : nat) : KSResult :=
  {| res_id := None; res_name := op_name; res_index := op_index;
     res_sparsity := 0; res_value := PyNum 0; res_baseline := true |}.

(** The value of a level above [1e-9] that follows the level [prev]: with
    [p] one past the cut index of [prev] and [c] the cut index of the
    level, the mean of [values[p:c]] when [c > p], else [values[c]]. *)
Definition marginal (values : list Q) (prev level : Q) : pyfloat :=
  let p := cut_index (len values) prev + 1 in
  let c := cut_index (len values) level in
  if c >? p then Np.mean (py_slice values p c)
  else PyNum (nth (Z.to_nat c) values 0%Q).

Definition level_entry (op_name : string) (op_index : nat)
    (values : list Q) (prev level : Q) : KSResult :=
  if Qle_bool level eps then baseline_entry op_name op_index
  else {| res_id := None; res_name := op_name; res_index := op_index;
          res_sparsity := level; res_value := marginal values prev level;
          res_baseline := false |}.

Definition report (op_name : string) (op_index : nat) (values : list Q)
    (sparsity_levels : list Q) : list KSResult :=
  match sparsity_levels with
  | [] => []
  | _ :: rest =>
      baseline_entry op_name op_index
      :: List.map (fun x => level_entry op_name op_index values (fst x) (snd x))
           (List.combine sparsity_levels rest)
  end.


End Approx.


(** ** [one_shot_ks_loss_sensitivity] *)

Module OneShot.
Import Py Analysis.

(** The handles [create_op_pruning] returns for one prunable op; only the
    three fields the sweep reads are kept, each by its graph name. *)
Record PruningOpVars : Type := {
  mask : string;
  update : string;
  op_input_name : string
}.

(** [SparsePruningOpVars = namedtuple(..., ("op_vars", "sparsity"))]. *)
Record SparsePruningOpVars : Type := {
  op_vars : PruningOpVars;
  sparsity : string
}.

(** The three shapes of [sess.run] call the function makes. *)
Inductive RunCall : Type :=
| RunInitializer (masks : list string)
| RunUpdate (update_op : string) (placeholder : string) (level : Q)
| RunFetch (ops : list string) (feed_dict : option (list (string * string))).

(** The session: an opaque engine.  A call changes the engine's state and
    either raises or returns the fetched values. *)
Record Engine : Type := {
  sess_state : Type;
  sess_run : RunCall -> sess_state -> sess_state * (exn + list pyfloat)
}.

(** What the body of the function acts on: the session, and the analysis
    object it allocates and then mutates through [add_result]. *)
Abbreviation Frame E := (sess_state E * list KSResult)%type (only parsing).

(** State and exceptions: a raise keeps the state reached so far. *)
Definition M (E : Engine) (A : Type) : Type :=
  Frame E -> Frame E * (exn + A).

Definition ret {E A} (a : A) : M E A := fun st => (st, inr a).

Definition raise {E A} (e : exn) : M E A := fun st => (st, inl e).

Definition bind {E A B} (m : M E A) (k : A -> M E B) : M E B :=
  fun st =>
    match m st with
    | (st', inl e) => (st', inl e)
    | (st', inr a) => k a st'
    end.

Notation "'let!' x <- m ;; k" := (bind m (fun x => k))
  (at level 10, x name, m at level 99, k at level 200).
Notation "'do!' m ;; k" := (bind m (fun _ => k))
  (at level 10, m at level 99, k at level 200).

(** [sess.run(...)]. *)
Definition run {E} (c : RunCall) : M E (list pyfloat) :=
  fun st =>
    let '(s, analysis) := st in
    let '(s', r) := sess_run E c s in
    ((s', analysis), r).

(** [analysis.add_result(None, name, index, sparsity, loss, baseline=b)]. *)
Definition record {E} (name : string) (index : nat) (level : Q)
    (loss : pyfloat) (b : bool) : M E unit :=
  fun st =>
    let '(s, analysis) := st in
    ((s, add_result analysis None name index level loss b), inr tt).

(** A [for] loop whose body only acts on the frame. *)
Fixpoint for_each {E A} (l : list A) (body : A -> M E unit) : M E unit :=
  match l with
  | [] => ret tt
  | x :: rest => do! body x ;; for_each rest body
  end.

(** The arguments after [op_vars]; [sess] is the engine state and
    [show_progress] only drives the progress bar, which is not modelled. *)
Record Args : Type := {
  loss_tensor : string;
  steps_per_measurement : Z;
  add_ops_creator : option (Z -> list string);
  feed_dict_creator : option (Z -> list (string * string));
  sparsity_levels : list Q
}.

(** [ops = [loss_tensor]], extended by [add_ops] when that is truthy. *)
Definition step_ops (a : Args) (step : Z) : list string :=
  let ops := [loss_tensor a] in
  let add_ops :=
    match add_ops_creator a with Some f => Some (f step) | None => None end in
  match add_ops with
  | Some (x :: t) => ops ++ (x :: t)
  | _ => ops
  end.

Definition step_feed (a : Args) (step : Z) : option (list (string * string)) :=
  match feed_dict_creator a with Some f => Some (f step) | None => None end.

(** The body of [for step in range(steps_per_measurement)]. *)
Definition measure_step {E} (a : Args) (op_index : nat)
    (sparse_op_vars : SparsePruningOpVars) (sparsity_level : Q) (step : Z)
    : M E unit :=
  let! values <- run (RunFetch (step_ops a step) (step_feed a step)) ;;
  match py_getitem values 0 with
  | None => raise IndexError
  | Some loss =>
      record (op_input_name (op_vars sparse_op_vars)) op_index sparsity_level
        loss (Qlt_bool sparsity_level Approx.eps)
  end.

(** The body of [for sparsity_level in sparsity_levels]. *)
Definition measure_level {E} (a : Args) (op_index : nat)
    (sparse_op_vars : SparsePruningOpVars) (sparsity_level : Q) : M E unit :=
  do! run (RunUpdate (update (op_vars sparse_op_vars))
            (sparsity sparse_op_vars) sparsity_level) ;;
  for_each (py_range (steps_per_measurement a))
    (measure_step a op_index sparse_op_vars sparsity_level).

(** The body of [for op_index, sparse_op_vars in enumerate(op_vars)]. *)
Definition measure_op {E} (a : Args) (x : nat * SparsePruningOpVars)
    : M E unit :=
  let '(op_index, sparse_op_vars) := x in
  do! for_each (sparsity_levels a) (measure_level a op_index sparse_op_vars) ;;
  do! run (RunUpdate (update (op_vars sparse_op_vars))
            (sparsity sparse_op_vars) 0) ;;
  ret tt.

(** The statements of the function after [analysis] has been allocated. *)
Definition one_shot_body {E} (vars : list SparsePruningOpVars) (a : Args)
    : M E unit :=
  do! run (RunInitializer (List.map (fun v => mask (op_vars v)) vars)) ;;
  for_each (enumerate vars) (measure_op a).

(** What the caller gets back: the session in the state the call left it,
    and either the exception or the returned analysis.  The analysis object
    is created inside the call and handed out by [return analysis] only. *)
Definition one_shot_ks_loss_sensitivity (E : Engine)
    (vars : list SparsePruningOpVars) (a : Args) (sess : sess_state E)
    : sess_state E * (exn + KSLossSensitivityAnalysis) :=
  match one_shot_body vars a (sess, []) with
  | ((sess', _), inl e) => (sess', inl e)
  | ((sess', analysis), inr _) => (sess', inr analysis)
  end.

(** *** The sweep as a flat sequence of session calls

    The calls the function issues do not depend on what the session
    returns, so the nested loops can be read as one list of calls, each
    tagged with the record (name, index, level) to file its first value
    under, if any. *)

Record PlanItem : Type := {
  call : RunCall;
  recorded : option (string * nat * Q)
}.

Definition init_item (vars : list SparsePruningOpVars) : PlanItem :=
  {| call := RunInitializer (List.map (fun v => mask (op_vars v)) vars);
     recorded := None |}.

Definition update_item (v : SparsePruningOpVars) (level : Q) : PlanItem :=
  {| call := RunUpdate (update (op_vars v)) (sparsity v) level;
     recorded := None |}.

Definition step_item (a : Args) (op_index : nat) (v : SparsePruningOpVars)
    (level : Q) (step : Z) : PlanItem :=
  {| call := RunFetch (step_ops a step) (step_feed a step);
     recorded := Some (op_input_name (op_vars v), op_index, level) |}.

Definition level_plan (a : Args) (op_index : nat) (v : SparsePruningOpVars)
    (level : Q) : list PlanItem :=
  update_item v level
  :: List.map (step_item a op_index v level)
       (py_range (steps_per_measurement a)).

Definition op_plan (a : Args) (x : nat * SparsePruningOpVars)
    : list PlanItem :=
  List.flat_map (level_plan a (fst x) (snd x)) (sparsity_levels a)
  ++ [update_item (snd x) 0].

Definition one_shot_plan (vars : list SparsePruningOpVars) (a : Args)
    : list PlanItem :=
  init_item vars :: List.flat_map (op_plan a) (enumerate vars).

(** Running one item: the call, then the bookkeeping of its result. *)
Definition exec_item {E} (it : PlanItem) : M E unit :=
  let! values <- run (call it) ;;
  match recorded it with
  | None => ret tt
  | Some (name, index, level) =>
      match py_getitem values 0 with
      | None => raise IndexError
      | Some loss => record name index level loss (Qlt_bool level Approx.eps)
      end
  end.

Definition exec {E} (plan : list PlanItem) : M E unit :=
  for_each plan exec_item.

(** The session state after a run of calls none of which raises. *)
Fixpoint run_calls (E : Engine) (calls : list RunCall) (s : sess_state E)
    : option (sess_state E) :=
  match calls with
  | [] => Some s
  | c :: rest =>
      match sess_run E c s with
      | (s', inr _) => run_calls E rest s'
      | (_, inl _) => None
      end
  end.

(** An engine that also keeps the list of calls it has received. *)
Definition logging (E : Engine) : Engine :=
  {| sess_state := (sess_state E * list RunCall)%type;
     sess_run := fun c st =>
       let '(s', r) := sess_run E c (fst st) in
       ((s', snd st ++ [c]), r) |}.

(** The sparsity most recently fed to an update op in a run of calls. *)
Fixpoint last_update (calls : list RunCall) (update_op : string)
    : option Q :=
  match calls with
  | [] => None
  | c :: rest =>
      match last_update rest update_op with
      | Some q => Some q
      | None =>
          match c with
          | RunUpdate u _ level =>
              if String.eqb u update_op then Some level else None
          | _ => None
          end
      end
  end.

(** An item whose result is filed is a fetch of at least one op. *)
Definition fetches_when_recorded (it : PlanItem) : Prop :=
  recorded it = None \/
  exists ops fd, call it = RunFetch ops fd /\ ops <> [].

(** The analysis a caller holds once the call is over. *)
Definition returned_analysis {S : Type}
    (outcome : S * (exn + KSLossSensitivityAnalysis))
    : option KSLossSensitivityAnalysis :=
  match snd outcome with
  | inr analysis => Some analysis
  | inl _ => None
  end.

(** An engine never raises and answers a fetch with one value per op. *)
Definition well_behaved (E : Engine) : Prop :=
  forall c s, exists s' values,
    sess_run E c s = (s', inr values) /\
    forall ops fd, c = RunFetch ops fd ->
      List.length values = List.length ops.

(** The fields of a record that the sweep itself decides. *)
Definition key (r : KSResult) : nat * string * Q * bool :=
  (res_index r, res_name r, res_sparsity r, res_baseline r).

Definition item_keys (it : PlanItem) : list (nat * string * Q * bool) :=
  match recorded it with
  | Some (name, index, level) =>
      [(index, name, level, Qlt_bool level Approx.eps)]
  | None => []
  end.

(** The session calls made for one prunable op: per level, the mask update
    at that level and then the measurement steps; last, the mask update at
    sparsity 0. *)
Definition op_calls (a : Args) (v : SparsePruningOpVars) : list RunCall :=
  List.flat_map
    (fun level =>
       RunUpdate (update (op_vars v)) (sparsity v) level
       :: List.map (fun step => RunFetch (step_ops a step) (step_feed a step))
            (py_range (steps_per_measurement a)))
    (sparsity_levels a)
  ++ [RunUpdate (update (op_vars v)) (sparsity v) 0].

Definition one_shot_calls (vars : list SparsePruningOpVars) (a : Args)
    : list RunCall :=
  RunInitializer (List.map (fun v => mask (op_vars v)) vars)
  :: List.flat_map (op_calls a) vars.

End OneShot.

(** A small simulated session, for running the sweep on concrete inputs:
    it remembers the sparsity fed to each update op and counts fetches;
    the [n]-th fetch returns [loss_of n], or raises when [n] is
    [fail_at]. *)
Module Sim.
Import Py OneShot.

Record SimState : Type := {
  sim_masks : list (string * Q);
  sim_fetches : nat
}.

Definition sim_run (loss_of : nat -> pyfloat) (fail_at : option nat)
    (c : RunCall) (s : SimState) : SimState * (exn + list pyfloat) :=
  match c with
  | RunInitializer _ =>
      ({| sim_masks := []; sim_fetches := sim_fetches s |}, inr [])
  | RunUpdate u _ level =>
      ({| sim_masks := (u, level) :: sim_masks s;
          sim_fetches := sim_fetches s |}, inr [])
  | RunFetch ops _ =>
      if match fail_at with
         | Some k => Nat.eqb k (sim_fetches s)
         | None => false
         end
      then (s, inl (EngineError "session run failed"))
      else ({| sim_masks := sim_masks s; sim_fetches := S (sim_fetches s) |},
            inr (List.map (fun _ => loss_of (sim_fetches s)) ops))
  end.

Definition engine (loss_of : nat -> pyfloat) (fail_at : option nat)
    : Engine :=
  {| sess_state := SimState; sess_run := sim_run loss_of fail_at |}.

Definition fresh : SimState := {| sim_masks := []; sim_fetches := 0 |}.

Definition layer (n : string) : SparsePruningOpVars :=
  {| op_vars := {| mask := n ++ "/mask"; update := n ++ "/update";
                   op_input_name := n ++ "/weight" |};
     sparsity := n ++ "/sparsity_placeholder" |}.

(** The [n]-th fetch measures the loss [base + n]. *)
Definition ramp (base : Z) (n : nat) : pyfloat :=
  PyNum (inject_Z (base + Z.of_nat n)).

Definition args (steps : Z) (levels : list Q) : Args :=
  {| loss_tensor := "loss"; steps_per_measurement := steps;
     add_ops_creator := None; feed_dict_creator := None;
     sparsity_levels := levels |}.

End Sim.

(** ** The pruning-modifier schedule *)

Module Modifier.
Import Py.
Local Open Scope Q_scope.

(** Modelled from the spec: the pruning modifiers
    ([sparseml.pytorch.optim]: constructor, [initialize], [update_ready],
    [scheduled_update], [applied_sparsity]) are not among the sources; only
    their tests are.  The definitions below follow sections 3 and 4.3 of the
    spec, and the assertions of [test_modifier_pruning.py] where the spec
    leaves a choice open. *)
Inductive ModifierKind : Type :=
| ConstantPruning
| GMPruning
| GlobalMagnitudePruning
| LayerPruning
| MovementPruning
| MFACPruning.

Inductive InterFunc : Type :=
| linear
| cubic
| inverse_cubic.

Record PruningModifier : Type := {
  kind : ModifierKind;
  start_epoch : Q;
  end_epoch : Q;
  update_frequency : Q;
  init_sparsity : Q;
  final_sparsity : Q;
  inter_func : InterFunc;
  phased : bool;
  global_sparsity : bool;
  initialized : bool;
  applied_sparsity : option Q
}.



(** Construction: [start_epoch > end_epoch] (when [end_epoch >= 0]) is a
    ConfigError; a new modifier is unbound and has applied nothing. *)
Definition create (k : ModifierKind) (start_ end_ frequency init final : Q)
    (f : InterFunc) (phased_ global_ : bool) : exn + PruningModifier :=
  if Qle_bool 0 end_ && Qlt_bool end_ start_ then inl ConfigError
  else inr {| kind := k; start_epoch := start_; end_epoch := end_;
              update_frequency := frequency; init_sparsity := init;
              final_sparsity := final; inter_func := f; phased := phased_;
              global_sparsity := global_; initialized := false;
              applied_sparsity := None |}.


Definition set_initialized (m : PruningModifier) : PruningModifier :=
  {| kind := kind m; start_epoch := start_epoch m; end_epoch := end_epoch m;
     update_frequency := update_frequency m;
     init_sparsity := init_sparsity m; final_sparsity := final_sparsity m;
     inter_func := inter_func m; phased := phased m;
     global_sparsity := global_sparsity m; initialized := true;
     applied_sparsity := applied_sparsity m |}.

Definition set_applied (m : PruningModifier) (s : Q) : PruningModifier :=
  {| kind := kind m; start_epoch := start_epoch m; end_epoch := end_epoch m;
     update_frequency := update_frequency m;
     init_sparsity := init_sparsity m; final_sparsity := final_sparsity m;
     inter_func := inter_func m; phased := phased m;
     global_sparsity := global_sparsity m; initialized := initialized m;
     applied_sparsity := Some s |}.

(** [initialize]: [matched] are the parameter names the modifier's
    patterns resolve to in the model.  Initialising twice is an
    IllegalStateError, an empty match set a ConfigError. *)
Definition initialize (m : PruningModifier) (matched : list string)
    : exn + PruningModifier :=
  if initialized m then inl IllegalStateError
  else match matched with
       | [] => inl ConfigError
       | _ => inr (set_initialized m)
       end.

(** [update_frequency > -1] means periodic. *)
Definition periodic (m : PruningModifier) : bool :=
  Qlt_bool (-1) (update_frequency m).

Definition is_int (q : Q) : bool := Qeq_bool q (inject_Z (Qfloor q)).

(** [epoch] is a positive integer multiple of [update_frequency] past
    [start_epoch], and strictly before [end_epoch]. *)
Definition on_frequency (m : PruningModifier) (epoch : Q) : bool :=
  Qlt_bool 0 (update_frequency m)
  && Qlt_bool (start_epoch m) epoch
  && Qlt_bool epoch (end_epoch m)
  && is_int ((epoch - start_epoch m) / update_frequency m).

(** The layer-ablation variant fires at every step of its window
    ([TestLayerPruningModifier.test_lifecycle] asserts it every tenth of an
    epoch, whatever the update frequency). *)
Definition in_window (m : PruningModifier) (epoch : Q) : bool :=
  Qle_bool (start_epoch m) epoch
  && (Qlt_bool (end_epoch m) 0 || Qle_bool epoch (end_epoch m)).

(** A negative [start_epoch] starts the schedule with the training:
    [TestConstantPruningModifier.test_lifecycle] (lines 135-136) takes
    epoch [0.0] for the first update when [modifier.start_epoch < 0] and
    asserts that the modifier is ready there. *)
Definition starts_at_once (m : PruningModifier) (epoch : Q) : bool :=
  Qlt_bool (start_epoch m) 0 && Qeq_bool epoch 0.

(** Modelled from the spec: [update_ready] is not among the sources.
    Section 4.3: true exactly at [start_epoch], at [end_epoch] (if
    non-negative) and, for periodic variants, at each epoch that is an
    integer multiple of [update_frequency] past [start_epoch] and strictly
    less than [end_epoch]; the layer-ablation variant fires throughout its
    window.  From the tests: with a negative [start_epoch] the modifier is
    ready at epoch 0 as well. *)
Definition update_ready (m : PruningModifier) (epoch : Q)
    (steps_per_epoch : Z) : bool :=
  match kind m with
  | LayerPruning => in_window m epoch
  | _ =>
      Qeq_bool epoch (start_epoch m)
      || (Qle_bool 0 (end_epoch m) && Qeq_bool epoch (end_epoch m))
      || (periodic m && on_frequency m epoch)
      || starts_at_once m epoch
  end.

Definition clamp (x lo hi : Q) : Q :=
  if Qle_bool x lo then lo else if Qle_bool hi x then hi else x.

Definition progress (m : PruningModifier) (epoch : Q) : Q :=
  clamp ((epoch - start_epoch m) / (end_epoch m - start_epoch m)) 0 1.

Section Interpolation.

(** The spec gives no formula for the inverse-cubic curve; it is a
    parameter of the schedule. *)
Variable inverse_cubic_curve : Q -> Q.

Definition interpolate (m : PruningModifier) (epoch : Q) : Q :=
  let p := progress m epoch in
  match inter_func m with
  | linear => init_sparsity m + p * (final_sparsity m - init_sparsity m)
  | cubic =>
      init_sparsity m
      + (final_sparsity m - init_sparsity m)
        * (1 - (1 - p) * (1 - p) * (1 - p))
  | inverse_cubic =>
      init_sparsity m
      + (final_sparsity m - init_sparsity m) * inverse_cubic_curve p
  end.

(** The index of the [update_frequency] interval [epoch] falls in, counted
    from 0 at [start_epoch]; the test computes it as
    [math.floor((epoch - start_epoch) / update_frequency)]. *)
Definition interval_index (m : PruningModifier) (epoch : Q) : Z :=
  Qfloor ((epoch - start_epoch m) / update_frequency m).

(** A phased schedule prunes in the intervals of even index (the first,
    third, ... interval) and is off in the others. *)
Definition pruned_on (m : PruningModifier) (epoch : Q) : bool :=
  Z.even (interval_index m epoch).

(** Modelled from the spec: the sparsity a ready [scheduled_update]
    applies (the function is not among the sources).  Section 4.3: forced
    to [init_sparsity] at [start_epoch] and to [final_sparsity] at
    [end_epoch]; otherwise 0 in an off interval of a phased schedule, and
    otherwise interpolated. *)
Definition target_sparsity (m : PruningModifier) (epoch : Q) : Q :=
  if Qeq_bool epoch (start_epoch m) then init_sparsity m
  else if Qeq_bool epoch (end_epoch m) then final_sparsity m
  else if phased m && negb (pruned_on m epoch) then 0
  else interpolate m epoch.

(** The variants that follow the sparsity schedule; the constant and the
    layer-ablation variants have no sparsity to apply. *)
Definition scheduled_kind (k : ModifierKind) : bool :=
  match k with
  | ConstantPruning | LayerPruning => false
  | _ => true
  end.

(** Modelled from the spec: [scheduled_update] is not among the sources.
    Section 4.3: fatal (IllegalStateError) before [initialize]; when ready
    it computes the target sparsity and applies it, and [applied_sparsity]
    then holds the value applied. *)
Definition scheduled_update (m : PruningModifier) (epoch : Q)
    (steps_per_epoch : Z) : exn + PruningModifier :=
  if negb (initialized m) then inl IllegalStateError
  else if update_ready m epoch steps_per_epoch then
    if scheduled_kind (kind m)
    then inr (set_applied m (target_sparsity m epoch))
    else inr m
  else inr m.


End Interpolation.

(** The fraction of the way from [init_sparsity] to [final_sparsity]
    that [interpolate] takes at progress [p]. *)
Definition shape (icurve : Q -> Q) (f : InterFunc) (p : Q) : Q :=
  match f with
  | linear => p
  | cubic => 1 - (1 - p) * (1 - p) * (1 - p)
  | inverse_cubic => icurve p
  end.


(** Configurations of [test_modifier_pruning.py], bound to a model. *)
Definition bound (k : ModifierKind) (start_ end_ frequency init final : Q)
    (f : InterFunc) (phased_ : bool) : PruningModifier :=
  {| kind := k; start_epoch := start_; end_epoch := end_;
     update_frequency := frequency; init_sparsity := init;
     final_sparsity := final; inter_func := f; phased := phased_;
     global_sparsity := false; initialized := true;
     applied_sparsity := None |}.




End Modifier.

(** ** Masks and the checkpoint state *)

Module StateDict.
Import Py.

(** Modelled from the spec: the mask applier and [state_dict] /
    [load_state_dict] of the pruning modifiers are not among the sources.
    Following sections 4.2 and 6 of the spec: [set_param_mask] installs a
    mask and at once multiplies the live parameter by it, element by
    element; the checkpoint maps ["<param_name>.sparsity_mask"] to the mask
    of every pruned parameter; [load_state_dict] re-applies each mask. *)
Record Bound : Type := {
  named_parameters : gmap string (list Q);
  managed : list string;
  param_masks : gmap string (list Q)
}.

Definition mask_key (name : string) : string :=
  String.append name ".sparsity_mask".

Definition apply_mask (param mask : list Q) : list Q :=
  zip_with Qmult param mask.

(** Modelled from the spec: [set_param_mask] is not among the sources.
    Section 4.2: it installs the mask and applies it at once to the live
    values of the parameter, element by element; an unknown parameter is a
    ParameterNotFoundError, and a mask of another size is refused by the
    tensor engine. *)
Definition set_param_mask (b : Bound) (name : string) (mask : list Q)
    : exn + Bound :=
  match named_parameters b !! name with
  | None => inl ParameterNotFoundError
  | Some param =>
      if Nat.eqb (List.length param) (List.length mask) then
        inr {| named_parameters :=
                 <[name := apply_mask param mask]> (named_parameters b);
               managed := managed b;
               param_masks := <[name := mask]> (param_masks b) |}
      else inl (EngineError "shape mismatch")
  end.

(** Modelled from the spec: [state_dict] is not among the sources; it
    maps ["<param_name>.sparsity_mask"] to the mask of every pruned
    parameter. *)
Definition state_dict (b : Bound) : gmap string (list Q) :=
  kmap mask_key (param_masks b).

Fixpoint load_loop (names : list string) (sd : gmap string (list Q))
    (b : Bound) : exn + Bound :=
  match names with
  | [] => inr b
  | name :: rest =>
      match sd !! mask_key name with
      | None => inl KeyError
      | Some mask =>
          match set_param_mask b name mask with
          | inl e => inl e
          | inr b' => load_loop rest sd b'
          end
      end
  end.

(** Modelled from the spec: [load_state_dict] is not among the sources.
    Section 6: it re-applies the mask stored under
    ["<param_name>.sparsity_mask"] to each pruned parameter as soon as it
    is loaded. *)
Definition load_state_dict (b : Bound) (sd : gmap string (list Q))
    : exn + Bound :=
  load_loop (managed b) sd b.

(** [for mask in state_dict.values(): mask.mul_(0.0)]. *)
Definition zero_masks (sd : gmap string (list Q)) : gmap string (list Q) :=
  (List.map (fun v => (v * 0)%Q)) <$> sd.

(** Every managed parameter exists in the model and has a mask of its
    size, and only managed parameters have masks. *)
Definition consistent (b : Bound) : Prop :=
  (forall name, name ∈ managed b ->
     exists param mask,
       named_parameters b !! name = Some param /\
       param_masks b !! name = Some mask /\
       List.length param = List.length mask) /\
  (forall name, is_Some (param_masks b !! name) -> name ∈ managed b).

Definition all_zero (t : list Q) : Prop := Forall (fun v => (v == 0)%Q) t.

(** A model with a weight and a bias, of which the weight is pruned. *)
Definition pruned_fc1 : Bound :=
  {| named_parameters :=
       <["seq.fc1.weight"%string := [1; -2; 3; 1 # 2]%Q]>
         (<["seq.fc1.bias"%string := [5]%Q]> ∅);
     managed := ["seq.fc1.weight"%string];
     param_masks := <["seq.fc1.weight"%string := [1; 1; 0; 1]%Q]> ∅ |}.

End StateDict.

(** ** Serialized configurations *)

Module Serial.
Import Py Modifier.

(** Modelled from the spec: [load_obj] and [str] of the modifiers (the
    YAML plumbing) are not among the sources.  Following section 6 of the
    spec, a modifier serializes to a tagged mapping whose fields are the
    attributes of section 3; values are carried as typed scalars, lists
    and nested mappings.  Deserializing is constructing: an unknown tag,
    inter_func or mask type, a field of the wrong type, a missing required
    field, or [start_epoch > end_epoch >= 0] is a ConfigError. *)
#[warnings="-register-all"]
Inductive Value : Type :=
| VFloat (q : Q)
| VInt (z : Z)
| VBool (b : bool)
| VStr (s : string)
| VInts (l : list Z)
| VStrs (l : list string)
| VMap (fields : list (string * Value)).

Record Tagged : Type := {
  tag : string;
  fields : list (string * Value)
}.

(** A mask type: a name, or the block shape as a list of two ints. *)
Inductive MaskType : Type :=
| unstructured
| channel
| filter
| block (in_channels out_channels : Z).

(** The matched parameters: names and patterns, or the match-all
    sentinel. *)
Inductive ParamsSpec : Type :=
| all_prunable
| named (names : list string).

Record MFACOptions : Type := {
  num_grads : Z;
  available_gpus : list string
}.

(** The configuration of a modifier on the sparsity schedule. *)
Record Scheduled : Type := {
  cfg_kind : ModifierKind;
  cfg_params : ParamsSpec;
  cfg_init_sparsity : Q;
  cfg_final_sparsity : Q;
  cfg_start_epoch : Q;
  cfg_end_epoch : Q;
  cfg_update_frequency : Q;
  cfg_inter_func : InterFunc;
  cfg_mask_type : MaskType;
  cfg_global_sparsity : bool;
  cfg_phased : bool;
  cfg_mfac_options : option MFACOptions
}.

Inductive Config : Type :=
| ConstantConfig (params : ParamsSpec) (start_ end_ : Q)
| ScheduledConfig (c : Scheduled)
| LayerConfig (layers : ParamsSpec) (start_ end_ frequency : Q).

Definition kind_tag (k : ModifierKind) : string :=
  match k with
  | ConstantPruning => "!ConstantPruningModifier"
  | GMPruning => "!GMPruningModifier"
  | GlobalMagnitudePruning => "!GlobalMagnitudePruningModifier"
  | LayerPruning => "!LayerPruningModifier"
  | MovementPruning => "!MovementPruningModifier"
  | MFACPruning => "!MFACPruningModifier"
  end.

Definition tag_kind (t : string) : option ModifierKind :=
  if String.eqb t "!ConstantPruningModifier" then Some ConstantPruning
  else if String.eqb t "!GMPruningModifier" then Some GMPruning
  else if String.eqb t "!GlobalMagnitudePruningModifier"
       then Some GlobalMagnitudePruning
  else if String.eqb t "!LayerPruningModifier" then Some LayerPruning
  else if String.eqb t "!MovementPruningModifier" then Some MovementPruning
  else if String.eqb t "!MFACPruningModifier" then Some MFACPruning
  else None.

Definition params_value (p : ParamsSpec) : Value :=
  match p with
  | all_prunable => VStr "__ALL_PRUNABLE__"
  | named names => VStrs names
  end.

Definition value_params (v : Value) : option ParamsSpec :=
  match v with
  | VStr s => if String.eqb s "__ALL_PRUNABLE__" then Some all_prunable
              else Some (named [s])
  | VStrs names => Some (named names)
  | _ => None
  end.

Definition inter_value (f : InterFunc) : Value :=
  match f with
  | linear => VStr "linear"
  | cubic => VStr "cubic"
  | inverse_cubic => VStr "inverse_cubic"
  end.

Definition value_inter (v : Value) : option InterFunc :=
  match v with
  | VStr s =>
      if String.eqb s "linear" then Some linear
      else if String.eqb s "cubic" then Some cubic
      else if String.eqb s "inverse_cubic" then Some inverse_cubic
      else None
  | _ => None
  end.

Definition mask_value (t : MaskType) : Value :=
  match t with
  | unstructured => VStr "unstructured"
  | channel => VStr "channel"
  | filter => VStr "filter"
  | block a b => VInts [a; b]
  end.

Definition value_mask (v : Value) : option MaskType :=
  match v with
  | VStr s =>
      if String.eqb s "unstructured" then Some unstructured
      else if String.eqb s "channel" then Some channel
      else if String.eqb s "filter" then Some filter
      else None
  | VInts [a; b] => Some (block a b)
  | _ => None
  end.

Definition mfac_value (o : MFACOptions) : Value :=
  VMap [("num_grads"%string, VInt (num_grads o));
        ("available_gpus"%string, VStrs (available_gpus o))].

Fixpoint lookup_field (name : string) (l : list (string * Value))
    : option Value :=
  match l with
  | [] => None
  | (k, v) :: rest => if String.eqb k name then Some v
                      else lookup_field name rest
  end.

Definition value_mfac (v : Value) : option MFACOptions :=
  match v with
  | VMap l =>
      match lookup_field "num_grads" l, lookup_field "available_gpus" l with
      | Some (VInt n), Some (VStrs g) =>
          Some {| num_grads := n; available_gpus := g |}
      | _, _ => None
      end
  | _ => None
  end.

Definition schedule_fields (c : Scheduled) : list (string * Value) :=
  [("init_sparsity"%string, VFloat (cfg_init_sparsity c));
   ("final_sparsity"%string, VFloat (cfg_final_sparsity c));
   ("start_epoch"%string, VFloat (cfg_start_epoch c));
   ("end_epoch"%string, VFloat (cfg_end_epoch c));
   ("update_frequency"%string, VFloat (cfg_update_frequency c));
   ("params"%string, params_value (cfg_params c));
   ("inter_func"%string, inter_value (cfg_inter_func c));
   ("mask_type"%string, mask_value (cfg_mask_type c));
   ("global_sparsity"%string, VBool (cfg_global_sparsity c));
   ("phased"%string, VBool (cfg_phased c))]
  ++ match cfg_mfac_options c with
     | Some o => [("mfac_options"%string, mfac_value o)]
     | None => []
     end.

(** Modelled from the spec: the serializer ([str] of a modifier) is not
    among the sources; it writes the tag of the modifier type and one
    field per attribute. *)
Definition serialize (c : Config) : Tagged :=
  match c with
  | ConstantConfig p s e =>
      {| tag := kind_tag ConstantPruning;
         fields := [("start_epoch"%string, VFloat s);
                    ("end_epoch"%string, VFloat e);
                    ("params"%string, params_value p)] |}
  | ScheduledConfig c =>
      {| tag := kind_tag (cfg_kind c); fields := schedule_fields c |}
  | LayerConfig l s e f =>
      {| tag := kind_tag LayerPruning;
         fields := [("start_epoch"%string, VFloat s);
                    ("end_epoch"%string, VFloat e);
                    ("update_frequency"%string, VFloat f);
                    ("layers"%string, params_value l)] |}
  end.

(** The constructor's schedule check. *)
Definition schedule_ok (start_ end_ : Q) : bool :=
  negb (Qle_bool 0 end_ && Qlt_bool end_ start_).

Definition get_float (name : string) (l : list (string * Value))
    : exn + Q :=
  match lookup_field name l with
  | Some (VFloat q) => inr q
  | _ => inl ConfigError
  end.

(** An optional boolean field: [false] when absent. *)
Definition get_bool (name : string) (l : list (string * Value))
    : exn + bool :=
  match lookup_field name l with
  | Some (VBool b) => inr b
  | None => inr false
  | _ => inl ConfigError
  end.

Definition get_with {A} (read : Value -> option A) (name : string)
    (l : list (string * Value)) : exn + A :=
  match lookup_field name l with
  | Some v => match read v with Some a => inr a | None => inl ConfigError end
  | None => inl ConfigError
  end.

Definition get_optional {A} (read : Value -> option A) (name : string)
    (l : list (string * Value)) : exn + option A :=
  match lookup_field name l with
  | Some v =>
      match read v with Some a => inr (Some a) | None => inl ConfigError end
  | None => inr None
  end.

Definition andthen {A B} (r : exn + A) (k : A -> exn + B) : exn + B :=
  match r with
  | inl e => inl e
  | inr a => k a
  end.

Definition checked (start_ end_ : Q) (c : Config) : exn + Config :=
  if schedule_ok start_ end_ then inr c else inl ConfigError.

(** Modelled from the spec: the deserializer ([load_obj]) is not among
    the sources; it reads the fields by name and constructs the modifier
    the tag names, with the constructor's checks. *)
Definition deserialize (t : Tagged) : exn + Config :=
  let l := fields t in
  match tag_kind (tag t) with
  | None => inl ConfigError
  | Some ConstantPruning =>
      andthen (get_float "start_epoch" l) (fun s =>
      andthen (get_float "end_epoch" l) (fun e =>
      andthen (get_with value_params "params" l) (fun p =>
      checked s e (ConstantConfig p s e))))
  | Some LayerPruning =>
      andthen (get_float "start_epoch" l) (fun s =>
      andthen (get_float "end_epoch" l) (fun e =>
      andthen (get_float "update_frequency" l) (fun f =>
      andthen (get_with value_params "layers" l) (fun p =>
      checked s e (LayerConfig p s e f)))))
  | Some k =>
      andthen (get_float "init_sparsity" l) (fun i =>
      andthen (get_float "final_sparsity" l) (fun fi =>
      andthen (get_float "start_epoch" l) (fun s =>
      andthen (get_float "end_epoch" l) (fun e =>
      andthen (get_float "update_frequency" l) (fun f =>
      andthen (get_with value_params "params" l) (fun p =>
      andthen (get_with value_inter "inter_func" l) (fun inter =>
      andthen (get_with value_mask "mask_type" l) (fun mt =>
      andthen (get_bool "global_sparsity" l) (fun g =>
      andthen (get_bool "phased" l) (fun ph =>
      andthen (get_optional value_mfac "mfac_options" l) (fun mf =>
      checked s e
        (ScheduledConfig
           {| cfg_kind := k; cfg_params := p; cfg_init_sparsity := i;
              cfg_final_sparsity := fi; cfg_start_epoch := s;
              cfg_end_epoch := e; cfg_update_frequency := f;
              cfg_inter_func := inter; cfg_mask_type := mt;
              cfg_global_sparsity := g; cfg_phased := ph;
              cfg_mfac_options := mf |}))))))))))))
  end.

(** A configuration some modifier can have: its kind fits its shape and
    the schedule passes the constructor's check. *)
Definition config_ok (c : Config) : bool :=
  match c with
  | ConstantConfig p s e => schedule_ok s e
  | LayerConfig p s e _ => schedule_ok s e
  | ScheduledConfig c =>
      scheduled_kind (cfg_kind c)
      && schedule_ok (cfg_start_epoch c) (cfg_end_epoch c)
  end.

(** The modifier of [test_gm_pruning_yaml]. *)
Definition gm_yaml : Config :=
  ScheduledConfig
    {| cfg_kind := GMPruning; cfg_params := named ["re:.*weight"%string];
       cfg_init_sparsity := 5 # 100; cfg_final_sparsity := 8 # 10;
       cfg_start_epoch := 5; cfg_end_epoch := 15;
       cfg_update_frequency := 1; cfg_inter_func := cubic;
       cfg_mask_type := filter; cfg_global_sparsity := false;
       cfg_phased := false; cfg_mfac_options := None |}.

End Serial.

(** ** The life-cycle tests *)

Module Lifecycle.
Import Py Modifier.
Local Open Scope Q_scope.

(** The schedule assertions of the [test_lifecycle] methods of
    [test_modifier_pruning.py], run against the modelled modifier.  The
    assertions on masks, mask creators and the forward pass of the model
    are not part of the schedule and are left out.  A test yields [true]
    when every assertion it reaches holds. *)

(** [int(x)] on a float: truncation toward zero. *)
Definition py_int (x : Q) : Z :=
  if Qle_bool 0 x then Qfloor x else (- Qfloor (- x))%Z.

(** [range(a, b)] as floats. *)
Definition epochs_between (a b : Z) : list Q :=
  List.map (fun n => inject_Z (a + Z.of_nat n))
    (List.seq 0 (Z.to_nat (b - a))).

Definition applied_is (m : PruningModifier) (s : Q) : bool :=
  match applied_sparsity m with
  | Some x => Qeq_bool x s
  | None => false
  end.

Definition applied_none (m : PruningModifier) : bool :=
  match applied_sparsity m with
  | Some _ => false
  | None => true
  end.

Section Tests.

Variable icurve : Q -> Q.
Variable steps : Z.

Definition updated (m : PruningModifier) (epoch : Q)
    : option PruningModifier :=
  match scheduled_update icurve m epoch steps with
  | inr m' => Some m'
  | inl _ => None
  end.

(** [while epoch < end_epoch - update_frequency: ...] of
    [TestGMPruningModifier.test_lifecycle] (lines 304-324). *)
Fixpoint gm_loop (fuel : nat) (m : PruningModifier) (epoch last : Q)
    : option PruningModifier :=
  if Qlt_bool epoch (end_epoch m - update_frequency m) then
    match fuel with
    | O => None
    | S fuel' =>
        let epoch := epoch + update_frequency m in
        if update_ready m epoch steps then
          match updated m epoch with
          | None => None
          | Some m' =>
              match applied_sparsity m' with
              | None => None
              | Some applied =>
                  let holds :=
                    if negb (phased m') then Qlt_bool last applied
                    else if Z.even (Qfloor ((epoch - start_epoch m')
                                            / update_frequency m'))
                         then Qle_bool last applied
                         else Qeq_bool applied 0 in
                  if holds then gm_loop fuel' m' epoch applied else None
              end
          end
        else None
    end
  else Some m.

(** [TestGMPruningModifier.test_lifecycle] (lines 270-334). *)
Definition gm_test_lifecycle (m : PruningModifier) : bool :=
  (if Qlt_bool 0 (start_epoch m) then applied_none m else true)
  && forallb (fun e => negb (update_ready m e steps) && applied_none m)
       (epochs_between 0 (py_int (start_epoch m)))
  && let epoch := inject_Z (py_int (start_epoch m)) in
     update_ready m epoch steps
     && match updated m epoch with
        | None => false
        | Some m1 =>
            applied_is m1 (init_sparsity m1)
            && match gm_loop 1000 m1 epoch (init_sparsity m1) with
               | None => false
               | Some m2 =>
                   let epoch := inject_Z (py_int (end_epoch m2)) in
                   update_ready m2 epoch steps
                   && match updated m2 epoch with
                      | None => false
                      | Some m3 =>
                          applied_is m3 (final_sparsity m3)
                          && forallb
                               (fun e => negb (update_ready m3 e steps)
                                         && applied_is m3 (final_sparsity m3))
                               (epochs_between (py_int (end_epoch m3) + 1)
                                  (py_int (end_epoch m3) + 6))
                      end
               end
        end.

(** [TestConstantPruningModifier.test_lifecycle] (lines 118-147). *)
Definition constant_test_lifecycle (m : PruningModifier) : bool :=
  (if Qle_bool 0 (start_epoch m)
   then forallb (fun e => negb (update_ready m e steps))
          (epochs_between 0 (py_int (start_epoch m)))
   else true)
  && let epoch := if Qle_bool 0 (start_epoch m)
                  then inject_Z (py_int (start_epoch m)) else 0 in
     update_ready m epoch steps
     && match updated m epoch with
        | None => false
        | Some m1 =>
            if Qle_bool 0 (end_epoch m1) then
              let epoch := inject_Z (py_int (end_epoch m1)) in
              update_ready m1 epoch steps
              && match updated m1 epoch with
                 | None => false
                 | Some m2 =>
                     forallb (fun e => negb (update_ready m2 e steps))
                       (epochs_between (py_int (end_epoch m2) + 1)
                          (py_int (end_epoch m2) + 6))
                 end
            else true
        end.

(** [while epoch < end_epoch - 0.1: epoch += 0.1; ...] of
    [TestLayerPruningModifier.test_lifecycle] (lines 427-430). *)
Fixpoint layer_loop (fuel : nat) (m : PruningModifier) (epoch end_ : Q)
    : option PruningModifier :=
  if Qlt_bool epoch (end_ - (1 # 10)) then
    match fuel with
    | O => None
    | S fuel' =>
        let epoch := epoch + (1 # 10) in
        if update_ready m epoch steps then
          match updated m epoch with
          | None => None
          | Some m' => layer_loop fuel' m' epoch end_
          end
        else None
    end
  else Some m.

(** The calls of [update_ready] in [TestLayerPruningModifier.test_lifecycle]
    (lines 383-441). *)
Definition layer_test_lifecycle (m : PruningModifier) : bool :=
  let started :=
    if Qlt_bool 0 (start_epoch m) then
      if forallb (fun e => negb (update_ready m e steps))
           (epochs_between 0 (py_int (start_epoch m)))
         && update_ready m (inject_Z (py_int (start_epoch m))) steps
      then match updated m (inject_Z (py_int (start_epoch m))) with
           | Some m1 => Some (m1, inject_Z (py_int (start_epoch m)))
           | None => None
           end
      else None
    else Some (m, 0) in
  match started with
  | None => false
  | Some (m1, epoch) =>
      let end_ := if Qlt_bool (-1) (end_epoch m1) then end_epoch m1
                  else start_epoch m1 + 10 in
      match layer_loop 1000 m1 epoch end_ with
      | None => false
      | Some m2 =>
          if Qlt_bool (-1) (end_epoch m2) then
            update_ready m2 (inject_Z (py_int (end_epoch m2))) steps
            && match updated m2 (inject_Z (py_int (end_epoch m2))) with
               | Some _ => true
               | None => false
               end
          else true
      end
  end.

End Tests.

(** The parametrized configurations of the tests whose arguments are all
    given there. *)
Definition gm_cases : list PruningModifier :=
  [bound GMPruning 0 15 1 (5 # 100) (95 # 100) linear false;
   bound GMPruning 10 25 1 (5 # 100) (95 # 100) cubic false;
   bound GlobalMagnitudePruning 10 25 1 (5 # 100) (95 # 100) cubic false;
   bound GMPruning 10 25 2 (9 # 10) (9 # 10) cubic true].

Definition constant_case : PruningModifier :=
  bound ConstantPruning 10 25 (-1) 0 0 linear false.

(** [ConstantPruningModifier(params=["re:.*weight"])]: the epochs are left
    to the defaults of the constructor, which is not among the sources;
    the test provides for a negative [start_epoch] and [end_epoch]. *)
Definition constant_unscheduled (start_ end_ frequency : Q)
    : PruningModifier :=
  bound ConstantPruning start_ end_ frequency 0 0 linear false.

Definition layer_cases : list PruningModifier :=
  [bound LayerPruning 0 15 1 0 0 linear false;
   bound LayerPruning 10 25 1 0 0 linear false].

End Lifecycle.

(** ** Comparing reports *)

Module Report.
Import Py Analysis.

(** The same float: numerically equal numbers, or [nan] on both sides. *)
Definition same_float (a b : pyfloat) : Prop :=
  match a, b with
  | PyNum x, PyNum y => (x == y)%Q
  | PyNaN, PyNaN => True
  | _, _ => False
  end.

(** Two records that a reader of the report cannot tell apart. *)
Definition same_record (r1 r2 : KSResult) : Prop :=
  res_id r1 = res_id r2 /\ res_name r1 = res_name r2 /\
  res_index r1 = res_index r2 /\ res_sparsity r1 = res_sparsity r2 /\
  same_float (res_value r1) (res_value r2) /\
  res_baseline r1 = res_baseline r2.

(** Two calls that end alike: the same exception, or reports that agree
    record by record. *)
Definition same_outcome (r1 r2 : exn + KSLossSensitivityAnalysis) : Prop :=
  match r1, r2 with
  | inl e1, inl e2 => e1 = e2
  | inr a1, inr a2 => Forall2 same_record a1 a2
  | _, _ => False
  end.

(** Two runs of the level loop that are in step: the same exception, or
    the same [prev_index] and reports that agree. *)
Definition in_step
    (r1 r2 : exn + (option Z * KSLossSensitivityAnalysis)) : Prop :=
  match r1, r2 with
  | inl e1, inl e2 => e1 = e2
  | inr (p1, a1), inr (p2, a2) => p1 = p2 /\ Forall2 same_record a1 a2
  | _, _ => False
  end.

(** How many entries of [l] are below [q]. *)
Fixpoint count_below (q : Q) (l : list Q) : nat :=
  match l with
  | [] => 0
  | x :: t => (if Qlt_bool x q then 1 else 0) + count_below q t
  end.

End Report.
(** ** What the life-cycle test asserts on the applied sparsity

    The loop of [TestGMPruningModifier.test_lifecycle] (lines 304-324),
    read as a check of the sparsities the modifier shows, one after each
    [scheduled_update] of the loop, whatever the modifier is.  A modifier
    that shows [None] fails every one of the comparisons and is left
    out.  The epochs are Python floats (binary64): [epoch] is advanced by
    a float addition and the interval index is the floor of a float
    quotient.  The sparsities are compared by their values. *)

Module GmChecks.
Import Py.
Import PrimFloat.

(** [math.floor(x)] on a float: an int; OverflowError on an infinity and
    ValueError on [nan], both [None] here. *)
Definition py_floor (x : float) : option Z :=
  match FloatOps.Prim2SF x with
  | SpecFloat.S754_zero _ => Some 0%Z
  | SpecFloat.S754_finite s m e =>
      Some (Z.shiftl (if s then Zneg m else Zpos m) e)
  | SpecFloat.S754_infinity _ => None
  | SpecFloat.S754_nan => None
  end.

(** [a / b] on floats: ZeroDivisionError ([None]) when [b] is zero. *)
Definition py_truediv (a b : float) : option float :=
  if (b =? 0)%float then None else Some (a / b)%float.

(** [math.floor((epoch - modifier.start_epoch) / modifier.update_frequency)]
    (lines 313-315). *)
Definition interval_index (start_epoch update_frequency epoch : float)
    : option Z :=
  match py_truediv (epoch - start_epoch)%float update_frequency with
  | Some x => py_floor x
  | None => None
  end.

(** The assertions of one pass (lines 309-322): [epoch] has been advanced,
    [applied] is [modifier.applied_sparsity] after the update.  A pass in
    which the interval index raises does not hold. *)
Definition gm_step_ok (phased : bool) (start_epoch update_frequency : float)
    (epoch : float) (last_sparsity applied : Q) : bool :=
  if negb phased then Qlt_bool last_sparsity applied
  else
    match interval_index start_epoch update_frequency epoch with
    | None => false
    | Some index =>
        let pruned_on := Z.even index in
        if pruned_on then Qle_bool last_sparsity applied
        else Qeq_bool applied 0
    end.

(** The passes of the loop in turn: [epoch += update_frequency], the
    assertions, [last_sparsity = modifier.applied_sparsity].  On entry
    [epoch] is [int(modifier.start_epoch)], which the first addition turns
    into a float. *)
Fixpoint gm_steps_ok (phased : bool) (start_epoch update_frequency : float)
    (epoch : float) (last_sparsity : Q) (shown : list Q) : bool :=
  match shown with
  | [] => true
  | applied :: rest =>
      let epoch := (epoch + update_frequency)%float in
      gm_step_ok phased start_epoch update_frequency epoch last_sparsity
        applied
      && gm_steps_ok phased start_epoch update_frequency epoch applied rest
  end.

(** The interval indices the first [passes] passes of the loop compute. *)
Fixpoint pass_indices (start_epoch update_frequency epoch : float)
    (passes : nat) : list (option Z) :=
  match passes with
  | O => []
  | S passes' =>
      let epoch := (epoch + update_frequency)%float in
      interval_index start_epoch update_frequency epoch
      :: pass_indices start_epoch update_frequency epoch passes'
  end.

(** The indices [first], [first + 1], ... of [passes] passes in which the
    float arithmetic on the epochs loses nothing. *)
Definition exact_indices (first : nat) (passes : nat) : list (option Z) :=
  List.map (fun k => Some (Z.of_nat k)) (List.seq first passes).

(** A run of sparsities that is alternately unconstrained from below by
    the one before it ([on]) and zero. *)
Fixpoint alternates (on : bool) (last : Q) (shown : list Q) : Prop :=
  match shown with
  | [] => True
  | applied :: rest =>
      (if on then last <= applied else applied == 0)%Q
      /\ alternates (negb on) applied rest
  end.

(** A run of sparsities that is alternately zero and non-negative, the
    first one zero unless [on]. *)
Fixpoint zero_every_other (on : bool) (shown : list Q) : Prop :=
  match shown with
  | [] => True
  | applied :: rest =>
      (if on then 0 <= applied else applied == 0)%Q
      /\ zero_every_other (negb on) rest
  end.

End GmChecks.

(** ** [ks_loss_sensitivity_op_vars] *)

Module OpVars.
Import Py OneShot.

(** The [mask_type] argument: a name, a block shape, or a creator object
    ([isinstance(mask_type, SparsityMaskCreator)]). *)
Inductive MaskTypeArg (creator : Type) : Type :=
| MaskName (name : string)
| MaskBlock (shape : list Z)
| MaskCreator (c : creator).

Arguments MaskName {creator} name.
Arguments MaskBlock {creator} shape.
Arguments MaskCreator {creator} c.

(** TensorFlow and the helpers the function imports
    ([get_ops_and_inputs_by_name_or_regex], [KSScope.model],
    [create_op_pruning], [load_mask_creator]); none of them is among the
    sources, so the function is read over any implementation of them.  A
    call that edits the graph takes the graph and returns it; every call
    may raise. *)
Record Builder : Type := {
  graph : Type;
  op : Type;
  tensor : Type;
  creator : Type;
  load_mask_creator : string + list Z -> exn + creator;
  get_ops_and_inputs_by_name_or_regex :
    list string -> graph -> exn + list (op * tensor);
  ks_scope_model : op -> string -> string;
  placeholder : string -> string -> graph -> graph * (exn + string);
  constant_true : string -> graph -> graph * (exn + string);
  create_op_pruning :
    op -> tensor -> string -> string -> bool -> option string -> string ->
    creator -> graph -> graph * (exn + PruningOpVars)
}.

(** [one_shot_ks_loss_sensitivity.__name__]. *)
Definition ks_group : string := "one_shot_ks_loss_sensitivity".

(** [mask_creator = mask_type], replaced by [load_mask_creator(mask_type)]
    when [mask_type] is not a creator already. *)
Definition resolve_mask_creator (B : Builder)
    (mask_type : MaskTypeArg (creator B)) : exn + creator B :=
  match mask_type with
  | MaskCreator c => inr c
  | MaskName name => load_mask_creator B (inl name)
  | MaskBlock shape => load_mask_creator B (inr shape)
  end.

(** The body of [for prune_op, prune_op_input in prunable_ops_and_inputs]:
    the placeholder and the constant are made inside the name scope of the
    op, then the pruning ops. *)
Definition inject_op (B : Builder) (mask_creator : creator B)
    (x : op B * tensor B) (g : graph B)
    : graph B * (exn + SparsePruningOpVars) :=
  let '(prune_op, prune_op_input) := x in
  let scope := ks_scope_model B prune_op ks_group in
  match placeholder B scope "sparsity_placeholder" g with
  | (g1, inl e) => (g1, inl e)
  | (g1, inr sparsity) =>
      match constant_true B scope g1 with
      | (g2, inl e) => (g2, inl e)
      | (g2, inr update) =>
          match create_op_pruning B prune_op prune_op_input sparsity update
                  true None ks_group mask_creator g2 with
          | (g3, inl e) => (g3, inl e)
          | (g3, inr prune_op_var) =>
              (g3, inr {| op_vars := prune_op_var; sparsity := sparsity |})
          end
      end
  end.

(** The loop, on the list [op_vars] built so far. *)
Fixpoint inject_loop (B : Builder) (mask_creator : creator B)
    (prunable : list (op B * tensor B)) (acc : list SparsePruningOpVars)
    (g : graph B) : graph B * (exn + list SparsePruningOpVars) :=
  match prunable with
  | [] => (g, inr acc)
  | x :: rest =>
      match inject_op B mask_creator x g with
      | (g', inl e) => (g', inl e)
      | (g', inr v) => inject_loop B mask_creator rest (acc ++ [v]) g'
      end
  end.

(** The function: the graph it leaves, and the exception or the list it
    returns.  [default_graph] is what [get_default_graph()] returns. *)
Definition ks_loss_sensitivity_op_vars (B : Builder)
    (default_graph : graph B) (graph_arg : option (graph B))
    (var_names : list string) (mask_type : MaskTypeArg (creator B))
    : graph B * (exn + list SparsePruningOpVars) :=
  let g := match graph_arg with Some g => g | None => default_graph end in
  match resolve_mask_creator B mask_type with
  | inl e => (g, inl e)
  | inr mask_creator =>
      match get_ops_and_inputs_by_name_or_regex B var_names g with
      | inl e => (g, inl e)
      | inr prunable_ops_and_inputs =>
          inject_loop B mask_creator prunable_ops_and_inputs [] g
      end
  end.

(** [v] is what one pass of the loop body makes for the prunable op [x],
    taking the graph from [g] to [g']: the placeholder kept in [v] is the
    one handed to [create_op_pruning]. *)
Definition injected (B : Builder) (mask_creator : creator B)
    (x : op B * tensor B) (g : graph B) (v : SparsePruningOpVars)
    (g' : graph B) : Prop :=
  exists g1 g2 update_const,
    placeholder B (ks_scope_model B (fst x) ks_group) "sparsity_placeholder" g
    = (g1, inr (sparsity v)) /\
    constant_true B (ks_scope_model B (fst x) ks_group) g1
    = (g2, inr update_const) /\
    create_op_pruning B (fst x) (snd x) (sparsity v) update_const true
      None ks_group mask_creator g2
    = (g', inr (op_vars v)).

(** Passes of the loop body over [prunable], one after the other. *)
Inductive injected_all (B : Builder) (mask_creator : creator B)
    : list (op B * tensor B) -> graph B -> list SparsePruningOpVars ->
      graph B -> Prop :=
| injected_nil g : injected_all B mask_creator [] g [] g
| injected_cons x rest g v g1 vars g2 :
    injected B mask_creator x g v g1 ->
    injected_all B mask_creator rest g1 vars g2 ->
    injected_all B mask_creator (x :: rest) g (v :: vars) g2.

(** The pass over [x] fails with [e], leaving the graph at [g']. *)
Definition injection_fails (B : Builder) (mask_creator : creator B)
    (x : op B * tensor B) (g : graph B) (e : exn) (g' : graph B) : Prop :=
  inject_op B mask_creator x g = (g', inl e).

End OpVars.

(** A small graph for running the builder on concrete inputs: the graph
    is the list of the nodes made so far, the variable names are taken
    literally, and [create_op_pruning] fails on the op [bad], if any. *)
Module SimGraph.
Import Py OneShot OpVars.
Local Open Scope string_scope.

Definition sim_load (m : string + list Z) : exn + string :=
  match m with
  | inl name =>
      if String.eqb name "unstructured" || String.eqb name "channel"
         || String.eqb name "filter"
      then inr name else inl ConfigError
  | inr [_; _] => inr "block"
  | inr _ => inl ConfigError
  end.

Definition sim_create (bad : option string) (o input sparsity update : string)
    (_ : bool) (_ : option string) (_ : string) (_ : string)
    (g : list string)
    : list string * (exn + PruningOpVars) :=
  if match bad with Some b => String.eqb b o | None => false end
  then (g, inl (EngineError "create_op_pruning failed"))
  else (List.app g [o ++ "/mask"; o ++ "/update"],
        inr {| mask := o ++ "/mask"; update := o ++ "/update";
               op_input_name := input |}).

Definition builder (bad : option string) : Builder :=
  {| graph := list string; op := string; tensor := string;
     creator := string;
     load_mask_creator := sim_load;
     get_ops_and_inputs_by_name_or_regex := fun names _ =>
       inr (List.map (fun n => (n, n ++ "/weight")) names);
     ks_scope_model := fun o group => o ++ "/" ++ group ++ "/";
     placeholder := fun scope name g =>
       (List.app g [scope ++ name], inr (scope ++ name));
     constant_true := fun scope g =>
       (List.app g [scope ++ "Const"], inr (scope ++ "Const"));
     create_op_pruning := sim_create bad |}.

End SimGraph.

(** ** Recovering a parameter name from a checkpoint key

    [_test_state_dict_save_load] of [test_modifier_pruning.py] reads the
    names of the pruned parameters off the keys of the state dict with
    [mask_name.split(".sparsity_mask")[0]]. *)

Module PyStr.

(** [s.startswith(p)]. *)
Fixpoint startswith (p s : string) : bool :=
  match p, s with
  | EmptyString, _ => true
  | String a p', String b s' => Ascii.eqb a b && startswith p' s'
  | String _ _, EmptyString => false
  end.

(** [sep in s]. *)
Fixpoint contains (sep s : string) : bool :=
  startswith sep s ||
  match s with
  | EmptyString => false
  | String _ s' => contains sep s'
  end.

(** [s.split(sep)[0]] for a non-empty [sep]: what stands before the first
    occurrence of [sep], and all of [s] when there is none. *)
Fixpoint split_head (sep s : string) : string :=
  if startswith sep s then EmptyString
  else match s with
       | EmptyString => EmptyString
       | String c s' => String c (split_head sep s')
       end.

(** [mask_name.split(".sparsity_mask")[0]]. *)
Definition param_name_of (mask_name : string) : string :=
  split_head ".sparsity_mask" mask_name.

(** The character [c] occurs in [s]. *)
Fixpoint has_char (c : Ascii.ascii) (s : string) : bool :=
  match s with
  | EmptyString => false
  | String b s' => Ascii.eqb c b || has_char c s'
  end.

End PyStr.

(** ** What a session answered *)

Module Trace.
Import Py OneShot.

(** The first value of every fetch answered in a run of calls, in the
    order of the calls; the run stops at the first call that raises. *)
Fixpoint measured_losses (E : Engine) (calls : list RunCall)
    (s : sess_state E) : list pyfloat :=
  match calls with
  | [] => []
  | c :: rest =>
      match sess_run E c s with
      | (s', inr values) =>
          match c, values with
          | RunFetch _ _, loss :: _ => loss :: measured_losses E rest s'
          | _, _ => measured_losses E rest s'
          end
      | (_, inl _) => []
      end
  end.

(** The mask updates an op gets when nothing is measured: one per level,
    then the reset. *)
Definition updates_only (levels : list Q) (v : SparsePruningOpVars)
    : list RunCall :=
  List.map (RunUpdate (update (op_vars v)) (sparsity v)) (levels ++ [0%Q]).

(** An item is filed exactly when its call is a fetch. *)
Definition filed_iff_fetch (it : PlanItem) : Prop :=
  match call it, recorded it with
  | RunFetch _ _, Some _ => True
  | RunFetch _ _, None => False
  | _, Some _ => False
  | _, None => True
  end.

End Trace.

(** * Properties *)

(** ** Lists *)

Section ListFacts.
Import Py.

Lemma flat_map_enumerate {A B} (f : nat * A -> list B) (g : A -> list B)
    (l : list A) :
  (forall i x, f (i, x) = g x) ->
  forall k, List.flat_map f (List.combine (List.seq k (List.length l)) l)
            = List.flat_map g l.
Proof.
  intros H. induction l as [|x l IH]; intros k; [reflexivity|].
  cbn [List.length List.seq List.combine List.flat_map].
  now rewrite H, IH.
Qed.

Lemma map_flat_map {A B C} (h : B -> C) (f : A -> list B) (l : list A) :
  List.map h (List.flat_map f l) = List.flat_map (fun x => List.map h (f x)) l.
Proof.
  induction l as [|x l IH]; [reflexivity|].
  cbn [List.flat_map]. now rewrite List.map_app, IH.
Qed.

Lemma flat_map_flat_map {A B C} (h : B -> list C) (f : A -> list B)
    (l : list A) :
  List.flat_map h (List.flat_map f l)
  = List.flat_map (fun x => List.flat_map h (f x)) l.
Proof.
  induction l as [|x l IH]; [reflexivity|].
  cbn [List.flat_map]. now rewrite List.flat_map_app, IH.
Qed.

Lemma flat_map_ext' {A B} (f g : A -> list B) (l : list A) :
  (forall x, f x = g x) -> List.flat_map f l = List.flat_map g l.
Proof.
  intros H. induction l as [|x l IH]; [reflexivity|].
  cbn [List.flat_map]. now rewrite H, IH.
Qed.

Lemma flat_map_length_const {A B} (f : A -> list B) (n : nat) (l : list A) :
  (forall x, List.length (f x) = n) ->
  List.length (List.flat_map f l) = (List.length l * n)%nat.
Proof.
  intros H. induction l as [|x l IH]; [reflexivity|].
  cbn [List.flat_map List.length]. rewrite List.length_app, H, IH. lia.
Qed.


End ListFacts.

(** ** The approximate analysis *)

Section ApproxFacts.
Import Py Analysis Approx.

Lemma Qle_bool_false (x y : Q) : Qle_bool x y = false -> (y < x)%Q.
Proof.
  intros H. apply Qnot_le_lt. intros Hle.
  apply Qle_bool_iff in Hle. congruence.
Qed.

Lemma Qlt_bool_iff (a b : Q) : Qlt_bool a b = true <-> (a < b)%Q.
Proof.
  unfold Qlt_bool. rewrite negb_true_iff. split.
  - apply Qle_bool_false.
  - intros Hlt. destruct (Qle_bool b a) eqn:Hle; [|reflexivity].
    apply Qle_bool_iff in Hle. exfalso. now apply (Qlt_not_le a b).
Qed.

Lemma Qlt_bool_false (a b : Q) : Qlt_bool a b = false <-> (b <= a)%Q.
Proof.
  unfold Qlt_bool. rewrite negb_false_iff. apply Qle_bool_iff.
Qed.

Lemma insert_perm x l : Permutation (Np.insert x l) (x :: l).
Proof.
  induction l as [|y t IH]; simpl; [reflexivity|].
  destruct (Qle_bool x y); [reflexivity|].
  rewrite IH. apply perm_swap.
Qed.

Lemma sort_perm l : Permutation (Np.sort l) l.
Proof.
  induction l as [|x t IH]; simpl; [constructor|].
  rewrite insert_perm. now constructor.
Qed.

Lemma insert_hd x a l :
  (a <= x)%Q -> HdRel Qle a l -> HdRel Qle a (Np.insert x l).
Proof.
  intros Hax Hl. destruct l as [|y t]; simpl; [now constructor|].
  destruct (Qle_bool x y); constructor; [assumption|].
  now inversion Hl.
Qed.

Lemma insert_sorted x l : Sorted Qle l -> Sorted Qle (Np.insert x l).
Proof.
  induction 1 as [|y t Ht IH Hhd]; simpl.
  - repeat constructor.
  - destruct (Qle_bool x y) eqn:Hxy.
    + apply Qle_bool_iff in Hxy. repeat constructor; assumption.
    + apply Qle_bool_false in Hxy. constructor; [assumption|].
      apply insert_hd; [now apply Qlt_le_weak | assumption].
Qed.

Lemma sort_sorted l : Sorted Qle (Np.sort l).
Proof.
  induction l as [|x t IH]; simpl; [constructor | now apply insert_sorted].
Qed.

Lemma py_round_comp (x y : Q) : (x == y)%Q -> py_round x = py_round y.
Proof.
  intros H. unfold py_round. rewrite (Qfloor_comp x y H).
  replace (x - inject_Z (Qfloor y) ?= 1 # 2)%Q
    with (y - inject_Z (Qfloor y) ?= 1 # 2)%Q; [reflexivity|].
  apply Qcompare_comp; [|reflexivity].
  apply Qplus_comp; [symmetry; exact H | reflexivity].
Qed.

Lemma py_round_lower x : (Qfloor x <= py_round x)%Z.
Proof.
  unfold py_round. cbv zeta.
  destruct ((x - inject_Z (Qfloor x)) ?= 1 # 2)%Q;
    [destruct (Z.even (Qfloor x))| |]; lia.
Qed.

Lemma py_round_nonneg x : (0 <= x)%Q -> (0 <= py_round x)%Z.
Proof.
  intros Hx. pose proof (py_round_lower x).
  pose proof (Qfloor_resp_le _ _ Hx) as H0.
  change (Qfloor 0) with 0%Z in H0. lia.
Qed.

Lemma cut_index_range n s :
  (0 < n)%Z -> (0 <= s)%Q -> (0 <= cut_index n s <= n - 1)%Z.
Proof.
  intros Hn Hs. unfold cut_index.
  assert (0 <= py_round (s * inject_Z n))%Z as Hr.
  { apply py_round_nonneg. apply Qmult_le_0_compat; [assumption|].
    change 0%Q with (inject_Z 0). rewrite <- Zle_Qle. lia. }
  destruct (Z.geb_spec (py_round (s * inject_Z n)) n); lia.
Qed.


Lemma py_getitem_in_range {A} (l : list A) (i : Z) (d : A) :
  (0 <= i < len l)%Z -> py_getitem l i = Some (nth (Z.to_nat i) l d).
Proof.
  intros Hi. unfold py_getitem.
  destruct (Z.leb_spec 0 i); [|lia]. destruct (Z.ltb_spec i (len l)); [|lia].
  simpl. apply nth_error_nth'. unfold len in *. lia.
Qed.

Lemma py_slice_in_range {A} (l : list A) (lo hi : Z) :
  (0 <= lo)%Z -> (0 <= hi <= len l)%Z ->
  py_slice l lo hi = firstn (Z.to_nat (hi - lo)) (skipn (Z.to_nat lo) l).
Proof.
  intros Hlo Hhi. unfold py_slice, py_clip.
  destruct (Z.ltb_spec lo 0); [lia|]. destruct (Z.ltb_spec hi 0); [lia|].
  rewrite (Z.min_l hi) by lia.
  destruct (Z.le_gt_cases lo (len l)) as [Hle|Hgt].
  - now rewrite Z.min_l by lia.
  - rewrite Z.min_r by lia.
    rewrite !skipn_all2 by (unfold len in *; lia).
    now rewrite !firstn_nil.
Qed.

Lemma sorted_magnitudes_length w :
  List.length (sorted_magnitudes w) = List.length w.
Proof.
  unfold sorted_magnitudes, Np.abs.
  rewrite (Permutation_length (sort_perm _)). apply length_map.
Qed.







Lemma level_step_no_index_error name idx values st level :
  values <> [] -> (0 <= level)%Q ->
  level_step name idx values st level <> inl IndexError.
Proof.
  intros Hne Hl. destruct st as [prev analysis]. unfold level_step.
  destruct (Qle_bool level eps); [discriminate|].
  assert (0 < len values)%Z as Hn.
  { unfold len. destruct values; [congruence | simpl; lia]. }
  pose proof (cut_index_range _ _ Hn Hl) as Hc.
  unfold level_avg. destruct prev as [p|]; [|discriminate].
  destruct (cut_index (len values) level >? p)%Z; [discriminate|].
  rewrite (py_getitem_in_range values _ 0%Q) by lia. discriminate.
Qed.

Lemma levels_loop_no_index_error name idx values levels :
  values <> [] -> Forall (fun s => 0 <= s)%Q levels ->
  forall st, levels_loop name idx values levels st <> inl IndexError.
Proof.
  intros Hne Hl. induction Hl as [|l levels Hl0 _ IH]; intros st.
  - discriminate.
  - cbn [levels_loop].
    pose proof (level_step_no_index_error name idx values st l Hne Hl0) as Hs.
    destruct (level_step name idx values st l) as [e|st'].
    + intros Heq. apply Hs. exact Heq.
    + apply IH.
Qed.

Lemma removelast_firstn_len {A} (l : list A) :
  removelast l = firstn (Nat.pred (List.length l)) l.
Proof.
  induction l as [|x [|y t] IH]; [reflexivity | reflexivity |].
  change (removelast (x :: y :: t)) with (x :: removelast (y :: t)).
  rewrite IH. reflexivity.
Qed.

Lemma slice_avoids_last {A} (l : list A) (p c : Z) :
  (0 <= p)%Z -> (0 <= c <= len l - 1)%Z ->
  py_slice l p c = py_slice (removelast l) p c.
Proof.
  intros Hp Hc.
  assert (len (removelast l) = len l - 1)%Z as Hlen.
  { unfold len in *. rewrite removelast_firstn_len, length_firstn. lia. }
  rewrite py_slice_in_range by lia.
  rewrite py_slice_in_range by lia.
  destruct (Z.le_gt_cases c p) as [Hle|Hgt].
  - replace (Z.to_nat (c - p)) with 0%nat by lia. reflexivity.
  - rewrite removelast_firstn_len, skipn_firstn_comm, firstn_firstn.
    f_equal. unfold len in *. lia.
Qed.





(** C10.  For a parameter with at least one weight and levels that are all
    non-negative: every cut index lies in [[0, N - 1]], so [values[c]] is
    defined; the sweep over the levels never ends in an IndexError; and the
    slice taken for a level that follows another is the same slice of the
    array without its last (largest) element. *)
Theorem approx_cut_index_in_bounds (weight : list Q) (levels : list Q) :
  weight <> [] ->
  Forall (fun s => 0 <= s)%Q levels ->
  let values := sorted_magnitudes weight in
  Forall (fun s =>
            (0 <= cut_index (len values) s <= len values - 1)%Z /\
            py_getitem values (cut_index (len values) s) <> None) levels
  /\ (forall analysis op_index op_name,
        approx_param analysis op_index op_name weight levels
        <> inl IndexError)
  /\ (forall prev s, In prev levels -> In s levels ->
        py_slice values (cut_index (len values) prev + 1)
          (cut_index (len values) s)
        = py_slice (removelast values) (cut_index (len values) prev + 1)
            (cut_index (len values) s)).
Proof.
  intros Hw Hl values.
  assert (values <> []) as Hne.
  { intros Heq. apply (f_equal (@List.length Q)) in Heq.
    unfold values in Heq. rewrite sorted_magnitudes_length in Heq.
    destruct weight; [congruence | discriminate]. }
  assert (0 < len values)%Z as Hn.
  { unfold len. destruct values; [congruence | simpl; lia]. }
  split; [|split].
  - eapply List.Forall_impl; [|exact Hl]. intros s Hs. cbv beta in Hs.
    pose proof (cut_index_range _ _ Hn Hs) as Hc. split; [exact Hc|].
    rewrite (py_getitem_in_range values _ 0%Q) by lia. discriminate.
  - intros analysis op_index op_name. unfold approx_param.
    pose proof (levels_loop_no_index_error op_name op_index values levels
                  Hne Hl (None, analysis)) as Hloop.
    fold values.
    destruct (levels_loop op_name op_index values levels (None, analysis))
      as [e|[prev a]]; [|discriminate].
    intros Heq. apply Hloop. congruence.
  - intros prev s Hprev Hs.
    rewrite List.Forall_forall in Hl.
    pose proof (cut_index_range _ _ Hn (Hl _ Hprev)).
    pose proof (cut_index_range _ _ Hn (Hl _ Hs)).
    apply slice_avoids_last; lia.
Qed.

Lemma approx_cut_index_in_bounds_witness :
  [4; -1; 3; -2]%Q <> [] /\
  Forall (fun s => 0 <= s)%Q [0; 1 # 2; 1; 3 # 2]%Q /\
  (forall analysis op_index op_name,
     approx_param analysis op_index op_name [4; -1; 3; -2]%Q
       [0; 1 # 2; 1; 3 # 2]%Q <> inl IndexError).
Proof.
  assert ([4; -1; 3; -2]%Q <> []) as H1 by discriminate.
  assert (Forall (fun s => 0 <= s)%Q [0; 1 # 2; 1; 3 # 2]%Q) as H2
    by (repeat constructor; apply Qle_bool_iff; reflexivity).
  split; [exact H1 | split; [exact H2 |]].
  exact (proj1 (proj2 (approx_cut_index_in_bounds _ _ H1 H2))).
Defined.

End ApproxFacts.

Section ApproxEdges.
Import Py Analysis Approx.



(** X2.  A parameter without any weight: a level above [1e-9] that
    follows a baseline level reads [values[-1]] of an empty array and
    raises IndexError. *)
Theorem approx_empty_weight_index_error
    (analysis : KSLossSensitivityAnalysis) (op_index : nat)
    (op_name : string) (first level : Q) (rest : list Q) :
  (first <= eps)%Q -> (eps < level)%Q ->
  approx_param analysis op_index op_name [] (first :: level :: rest)
  = inl IndexError.
Proof.
  intros Hf Hl. unfold approx_param. cbn [levels_loop].
  unfold level_step. apply Qle_bool_iff in Hf. rewrite Hf.
  destruct (Qle_bool level eps) eqn:Hb.
  - apply Qle_bool_iff in Hb. exfalso. now apply (Qlt_not_le eps level).
  - assert (forall s, cut_index (len (sorted_magnitudes [])) s = -1) as Hcut.
    { intros s. unfold cut_index.
      change (len (sorted_magnitudes [])) with 0.
      rewrite (py_round_comp (s * inject_Z 0) 0) by (cbn; ring).
      reflexivity. }
    rewrite !Hcut. reflexivity.
Qed.

Lemma approx_empty_weight_index_error_witness :
  (0 <= eps)%Q /\ (eps < 1 # 2)%Q /\
  approx_param [] 0 "fc1/weight" [] [0; 1 # 2]%Q = inl IndexError.
Proof.
  assert (0 <= eps)%Q as H0 by (apply Qle_bool_iff; reflexivity).
  assert (eps < 1 # 2)%Q as H1 by reflexivity.
  split; [exact H0 | split; [exact H1|]].
  exact (approx_empty_weight_index_error [] 0 "fc1/weight" 0 (1 # 2) []
           H0 H1).
Defined.


Lemma report_index (op_name : string) (op_index : nat) (values : list Q)
    (levels : list Q) :
  Forall (fun r => res_index r = op_index /\ res_name r = op_name)
    (report op_name op_index values levels).
Proof.
  destruct levels as [|first rest]; [constructor|].
  cbn [report]. constructor; [split; reflexivity|].
  apply List.Forall_map, List.Forall_forall. intros [prev level] _.
  unfold level_entry. cbn [fst snd].
  destruct (Qle_bool level eps); split; reflexivity.
Qed.



End ApproxEdges.

(** *** What the recorded magnitudes never are *)

Section ApproxOrder.
Import Py Analysis Approx Report.

Lemma Qle_transitive : Relations_1.Transitive Qle.
Proof. intros x y z. apply Qle_trans. Qed.

Lemma sorted_magnitudes_sorted (w : list Q) :
  StronglySorted Qle (sorted_magnitudes w).
Proof.
  apply Sorted_StronglySorted; [exact Qle_transitive | apply sort_sorted].
Qed.











(** The levels have to be non-negative for that: after the level [-0.5],
    which is filed as a baseline, [prev_index] is [-1] on four weights,
    and the level [0.1] then takes the mean of [values[-1:0]], an empty
    slice. *)
Lemma approx_negative_level_nan_example :
  exists analysis,
    approx_ks_loss_sensitivity [("fc1/weight"%string, [4; -1; 3; -2]%Q)]
      [0; - (1 # 2); 1 # 10]%Q = inr analysis /\
    List.map res_value analysis = [PyNum 0; PyNum 0; PyNaN].
Proof. eexists. split; reflexivity. Qed.

End ApproxOrder.

(** *** The report depends on the magnitudes only *)

Section ApproxInvariance.
Import Py Analysis Approx Report.

Lemma count_below_perm (q : Q) (l1 l2 : list Q) :
  Permutation l1 l2 -> count_below q l1 = count_below q l2.
Proof.
  induction 1 as [|x l1 l2 _ IH|x y l|l1 l2 l3 _ IH1 _ IH2];
    cbn [count_below]; lia.
Qed.

Lemma count_below_none (q : Q) (l : list Q) :
  Forall (fun x => q <= x)%Q l -> count_below q l = 0%nat.
Proof.
  induction 1 as [|x l Hx _ IH]; [reflexivity|].
  cbn [count_below]. rewrite IH.
  apply Qlt_bool_false in Hx. now rewrite Hx.
Qed.

(** In an ascending array the entries below [q] are the first
    [count_below q] ones. *)
Lemma sorted_count (q : Q) (l : list Q) :
  StronglySorted Qle l ->
  forall i, (i < List.length l)%nat ->
    (nth i l 0 < q)%Q <-> (i < count_below q l)%nat.
Proof.
  induction 1 as [|a l Hl IH Ha]; intros i Hi; [simpl in Hi; lia|].
  cbn [count_below]. destruct (Qlt_bool a q) eqn:Haq.
  - apply Qlt_bool_iff in Haq. destruct i as [|i]; cbn [nth].
    + split; [lia | intros _; exact Haq].
    + rewrite IH by (simpl in Hi; lia). lia.
  - apply Qlt_bool_false in Haq.
    assert (Forall (fun x => q <= x)%Q (a :: l)) as Hall.
    { constructor; [exact Haq|]. eapply List.Forall_impl; [|exact Ha].
      intros x Hx. cbv beta in Hx. now apply Qle_trans with a. }
    rewrite count_below_none by now inversion Hall.
    split; [|lia]. intros Hlt. exfalso.
    rewrite List.Forall_forall in Hall.
    apply (Qlt_not_le _ _ Hlt). apply Hall. now apply nth_In.
Qed.

Lemma Forall2_of_nth {A} (R : A -> A -> Prop) (d : A) (l1 : list A) :
  forall l2, List.length l1 = List.length l2 ->
    (forall i, (i < List.length l1)%nat -> R (nth i l1 d) (nth i l2 d)) ->
    Forall2 R l1 l2.
Proof.
  induction l1 as [|x l1 IH]; intros [|y l2] Hlen Hnth; try discriminate.
  - constructor.
  - constructor.
    + apply (Hnth 0%nat). simpl. lia.
    + apply IH; [simpl in Hlen; lia|].
      intros i Hi. apply (Hnth (S i)). simpl. lia.
Qed.

(** Two ascending arrangements of the same entries agree position by
    position. *)
Lemma sorted_perm_pointwise (l1 l2 : list Q) :
  StronglySorted Qle l1 -> StronglySorted Qle l2 -> Permutation l1 l2 ->
  Forall2 Qeq l1 l2.
Proof.
  intros H1 H2 Hp. pose proof (Permutation_length Hp) as Hlen.
  apply (Forall2_of_nth Qeq 0%Q); [exact Hlen|].
  intros i Hi.
  assert (forall q, (nth i l1 0 < q)%Q <-> (nth i l2 0 < q)%Q) as Hq.
  { intros q. rewrite (sorted_count q l1 H1 i Hi).
    rewrite (sorted_count q l2 H2 i) by lia.
    now rewrite (count_below_perm q l1 l2 Hp). }
  apply Qle_antisym; apply Qnot_lt_le; intros Hlt.
  - apply Hq in Hlt. exact (Qlt_irrefl _ Hlt).
  - apply Hq in Hlt. exact (Qlt_irrefl _ Hlt).
Qed.

Lemma sorted_magnitudes_perm (w1 w2 : list Q) :
  Permutation (List.map Qabs w1) (List.map Qabs w2) ->
  Forall2 Qeq (sorted_magnitudes w1) (sorted_magnitudes w2).
Proof.
  intros Hp. apply sorted_perm_pointwise; try apply sorted_magnitudes_sorted.
  unfold sorted_magnitudes, Np.abs.
  rewrite (sort_perm (List.map Qabs w1)), (sort_perm (List.map Qabs w2)).
  exact Hp.
Qed.

Lemma Forall2_len {A B} (R : A -> B -> Prop) (l1 : list A) (l2 : list B) :
  Forall2 R l1 l2 -> len l1 = len l2.
Proof. intros H. unfold len. now rewrite (List.Forall2_length H). Qed.

Lemma sum_pointwise (l1 l2 : list Q) :
  Forall2 Qeq l1 l2 -> (Np.sum l1 == Np.sum l2)%Q.
Proof.
  induction 1 as [|x y l1 l2 Hxy _ IH]; [reflexivity|].
  cbn [Np.sum fold_right]. change (fold_right Qplus 0%Q l1) with (Np.sum l1).
  change (fold_right Qplus 0%Q l2) with (Np.sum l2). now rewrite Hxy, IH.
Qed.

Lemma mean_pointwise (l1 l2 : list Q) :
  Forall2 Qeq l1 l2 -> same_float (Np.mean l1) (Np.mean l2).
Proof.
  intros H. pose proof (Forall2_len _ _ _ H) as Hlen.
  pose proof (sum_pointwise _ _ H) as Hsum.
  destruct H as [|x y l1 l2 Hxy Hrest]; [exact I|].
  unfold Np.mean, same_float. rewrite Hsum, Hlen. reflexivity.
Qed.

Lemma py_slice_pointwise (l1 l2 : list Q) (lo hi : Z) :
  Forall2 Qeq l1 l2 -> Forall2 Qeq (py_slice l1 lo hi) (py_slice l2 lo hi).
Proof.
  intros H. unfold py_slice, py_clip. rewrite (Forall2_len _ _ _ H).
  apply Forall2_take, Forall2_drop, H.
Qed.

Lemma nth_error_pointwise (l1 l2 : list Q) (i : nat) :
  Forall2 Qeq l1 l2 ->
  match nth_error l1 i, nth_error l2 i with
  | Some x, Some y => (x == y)%Q
  | None, None => True
  | _, _ => False
  end.
Proof.
  intros H. revert i.
  induction H as [|x y l1 l2 Hxy _ IH]; intros [|i]; cbn; auto.
  apply IH.
Qed.

Lemma py_getitem_pointwise (l1 l2 : list Q) (i : Z) :
  Forall2 Qeq l1 l2 ->
  match py_getitem l1 i, py_getitem l2 i with
  | Some x, Some y => (x == y)%Q
  | None, None => True
  | _, _ => False
  end.
Proof.
  intros H. unfold py_getitem. rewrite (Forall2_len _ _ _ H).
  destruct ((0 <=? i) && (i <? len l2)); [now apply nth_error_pointwise|].
  destruct ((- len l2 <=? i) && (i <? 0)); [now apply nth_error_pointwise|].
  exact I.
Qed.

Lemma same_record_refl (r : KSResult) : same_record r r.
Proof.
  repeat split. destruct (res_value r); cbn; [reflexivity | exact I].
Qed.

Lemma level_step_pointwise (name : string) (idx : nat) (v1 v2 : list Q)
    (prev : option Z) (a1 a2 : KSLossSensitivityAnalysis) (level : Q) :
  Forall2 Qeq v1 v2 -> Forall2 same_record a1 a2 ->
  in_step (level_step name idx v1 (prev, a1) level)
          (level_step name idx v2 (prev, a2) level).
Proof.
  intros Hv Ha. unfold level_step. rewrite (Forall2_len _ _ _ Hv).
  destruct (Qle_bool level eps).
  - split; [reflexivity|]. unfold add_result.
    apply Forall2_app; [exact Ha|]. constructor; [|constructor].
    apply same_record_refl.
  - unfold level_avg. destruct prev as [p|]; [|reflexivity].
    destruct (cut_index (len v2) level >? p).
    + split; [reflexivity|]. unfold add_result.
      apply Forall2_app; [exact Ha|]. constructor; [|constructor].
      repeat split. cbn [res_value].
      apply mean_pointwise, py_slice_pointwise, Hv.
    + pose proof (py_getitem_pointwise v1 v2 (cut_index (len v2) level) Hv)
        as Hget.
      destruct (py_getitem v1 (cut_index (len v2) level)) as [x|],
               (py_getitem v2 (cut_index (len v2) level)) as [y|];
        try contradiction; [|reflexivity].
      split; [reflexivity|]. unfold add_result.
      apply Forall2_app; [exact Ha|]. constructor; [|constructor].
      repeat split. exact Hget.
Qed.

Lemma levels_loop_pointwise (name : string) (idx : nat) (v1 v2 : list Q)
    (levels : list Q) :
  Forall2 Qeq v1 v2 ->
  forall prev a1 a2, Forall2 same_record a1 a2 ->
    in_step (levels_loop name idx v1 levels (prev, a1))
            (levels_loop name idx v2 levels (prev, a2)).
Proof.
  intros Hv. induction levels as [|level levels IH]; intros prev a1 a2 Ha.
  - split; [reflexivity | exact Ha].
  - cbn [levels_loop].
    pose proof (level_step_pointwise name idx v1 v2 prev a1 a2 level Hv Ha)
      as Hstep.
    destruct (level_step name idx v1 (prev, a1) level) as [e1|[p1 b1]],
             (level_step name idx v2 (prev, a2) level) as [e2|[p2 b2]];
      try contradiction; [exact Hstep|].
    destruct Hstep as [-> Hb]. now apply IH.
Qed.

Lemma params_loop_pointwise (levels : list Q)
    (p1 p2 : list (string * list Q)) :
  Forall2 (fun x y =>
             fst x = fst y /\
             Permutation (List.map Qabs (snd x)) (List.map Qabs (snd y)))
    p1 p2 ->
  forall k a1 a2, Forall2 same_record a1 a2 ->
    same_outcome
      (params_loop (List.combine (List.seq k (List.length p1)) p1) levels a1)
      (params_loop (List.combine (List.seq k (List.length p2)) p2) levels a2).
Proof.
  induction 1 as [|[n1 w1] [n2 w2] p1 p2 [Hn Hw] _ IH]; intros k a1 a2 Ha.
  - exact Ha.
  - cbn [fst snd] in Hn, Hw. subst n2.
    cbn [List.length List.seq List.combine params_loop].
    unfold approx_param.
    pose proof (levels_loop_pointwise n1 k _ _ levels
                  (sorted_magnitudes_perm w1 w2 Hw) None a1 a2 Ha) as Hloop.
    destruct (levels_loop n1 k (sorted_magnitudes w1) levels (None, a1))
      as [e1|[q1 b1]],
      (levels_loop n1 k (sorted_magnitudes w2) levels (None, a2))
      as [e2|[q2 b2]]; try contradiction; [exact Hloop|].
    destruct Hloop as [_ Hb]. now apply IH.
Qed.

(** X8.  The approximate analysis reads the weights of a parameter
    through their magnitudes only: two models whose parameters have the
    same names and, one by one, the same magnitudes up to order (weights
    reordered within a tensor, or with their signs changed) get the same
    outcome, the same exception or reports that agree record by record. *)
Theorem approx_ignores_order_and_sign
    (model1 model2 : list (string * list Q)) (levels : list Q) :
  Forall2 (fun x y =>
             fst x = fst y /\
             Permutation (List.map Qabs (snd x)) (List.map Qabs (snd y)))
    model1 model2 ->
  same_outcome (approx_ks_loss_sensitivity model1 levels)
               (approx_ks_loss_sensitivity model2 levels).
Proof.
  intros H. unfold approx_ks_loss_sensitivity, enumerate.
  apply params_loop_pointwise; [exact H | constructor].
Qed.

Lemma approx_ignores_order_and_sign_witness :
  Forall2 (fun x y : string * list Q =>
             fst x = fst y /\
             Permutation (List.map Qabs (snd x)) (List.map Qabs (snd y)))
    [("fc1/weight"%string, [4; -1; 3; -2]%Q)]
    [("fc1/weight"%string, [1; -4; -3; 2]%Q)] /\
  same_outcome
    (approx_ks_loss_sensitivity [("fc1/weight"%string, [4; -1; 3; -2]%Q)]
       [0; 1 # 2; 9 # 10]%Q)
    (approx_ks_loss_sensitivity [("fc1/weight"%string, [1; -4; -3; 2]%Q)]
       [0; 1 # 2; 9 # 10]%Q).
Proof.
  assert (Forall2 (fun x y : string * list Q =>
             fst x = fst y /\
             Permutation (List.map Qabs (snd x)) (List.map Qabs (snd y)))
            [("fc1/weight"%string, [4; -1; 3; -2]%Q)]
            [("fc1/weight"%string, [1; -4; -3; 2]%Q)]) as H.
  { constructor; [|constructor]. split; [reflexivity|]. apply perm_swap. }
  split; [exact H|].
  exact (approx_ignores_order_and_sign _ _ [0; 1 # 2; 9 # 10]%Q H).
Defined.

End ApproxInvariance.

(** *** A parameter without weights *)

Section ApproxFailures.
Import Py Analysis Approx.






End ApproxFailures.

(** ** The one-shot sweep *)

Section OneShotFacts.
Import Py Analysis OneShot.

Context {E : Engine}.

(** *** The monad and its loops *)

Lemma bind_ret_l {A B} (a : A) (k : A -> M E B) st :
  bind (ret a) k st = k a st.
Proof. reflexivity. Qed.

Lemma bind_assoc {A B C} (m : M E A) (k : A -> M E B) (h : B -> M E C) st :
  bind (bind m k) h st = bind m (fun a => bind (k a) h) st.
Proof. unfold bind. destruct (m st) as [st' [e|a]]; reflexivity. Qed.

Lemma bind_ext {A B} (m : M E A) (k k' : A -> M E B) st :
  (forall a st', k a st' = k' a st') -> bind m k st = bind m k' st.
Proof.
  intros H. unfold bind. destruct (m st) as [st' [e|a]]; [reflexivity|apply H].
Qed.

Lemma bind_cong {A B} (m m' : M E A) (k k' : A -> M E B) st :
  m st = m' st -> (forall a st', k a st' = k' a st') ->
  bind m k st = bind m' k' st.
Proof.
  intros Hm Hk. unfold bind. rewrite Hm.
  destruct (m' st) as [st' [e|a]]; [reflexivity|apply Hk].
Qed.

Lemma bind_ret_r (m : M E unit) st : bind m (fun _ => ret tt) st = m st.
Proof.
  unfold bind, ret. destruct (m st) as [st' [e|[]]]; reflexivity.
Qed.

Lemma for_each_ext {A} (l : list A) (f g : A -> M E unit) :
  (forall x st, f x st = g x st) ->
  forall st, for_each l f st = for_each l g st.
Proof.
  intros H. induction l as [|x l IH]; intros st; [reflexivity|].
  cbn [for_each]. unfold bind. rewrite H.
  destruct (g x st) as [st' [e|u]]; [reflexivity|apply IH].
Qed.

Lemma for_each_map {A B} (g : A -> B) (l : list A) (f : B -> M E unit) :
  forall st, for_each (List.map g l) f st = for_each l (fun x => f (g x)) st.
Proof.
  induction l as [|x l IH]; intros st; [reflexivity|].
  cbn [for_each List.map]. apply bind_ext. intros _ st'. apply IH.
Qed.

Lemma exec_app (p q : list PlanItem) :
  forall st, exec (E:=E) (p ++ q) st = bind (exec p) (fun _ => exec q) st.
Proof.
  unfold exec. induction p as [|x p IH]; intros st; [reflexivity|].
  cbn [for_each app]. rewrite bind_assoc. apply bind_ext.
  intros _ st'. apply IH.
Qed.

Lemma for_each_exec {A} (l : list A) (body : A -> M E unit)
    (f : A -> list PlanItem) :
  (forall x st, body x st = exec (f x) st) ->
  forall st, for_each l body st = exec (List.flat_map f l) st.
Proof.
  intros H. induction l as [|x l IH]; intros st; [reflexivity|].
  cbn [for_each List.flat_map]. rewrite exec_app.
  unfold bind. rewrite H.
  destruct (exec (f x) st) as [st' [e|u]]; [reflexivity|apply IH].
Qed.

(** *** The loops of the function are the flat plan *)

Lemma measure_level_exec (a : Args) i v level st :
  measure_level (E:=E) a i v level st = exec (level_plan a i v level) st.
Proof.
  unfold measure_level, level_plan, exec. cbn [for_each].
  unfold exec_item at 1. cbn [recorded update_item call].
  rewrite bind_assoc. apply bind_ext. intros _ st'.
  rewrite bind_ret_l. rewrite for_each_map.
  apply for_each_ext. reflexivity.
Qed.

Lemma measure_op_exec (a : Args) x st :
  measure_op (E:=E) a x st = exec (op_plan a x) st.
Proof.
  destruct x as [i v]. unfold measure_op, op_plan. cbn [fst snd].
  rewrite exec_app. apply bind_cong.
  - apply (for_each_exec _ _ (level_plan a i v)).
    intros; apply measure_level_exec.
  - intros _ st'. unfold exec. cbn [for_each]. unfold exec_item.
    cbn [recorded update_item call].
    rewrite !bind_assoc. apply bind_ext. intros _ st''. reflexivity.
Qed.

Lemma one_shot_body_exec (vars : list SparsePruningOpVars) (a : Args) st :
  one_shot_body (E:=E) vars a st = exec (one_shot_plan vars a) st.
Proof.
  unfold one_shot_body, one_shot_plan, exec. cbn [for_each].
  unfold exec_item at 1. cbn [recorded init_item call].
  rewrite bind_assoc. apply bind_ext. intros _ st'.
  rewrite bind_ret_l.
  apply (for_each_exec _ _ (op_plan a)). intros; apply measure_op_exec.
Qed.

(** *** Running a plan *)

Lemma exec_item_success (it : PlanItem) :
  well_behaved E -> fetches_when_recorded it ->
  forall s an, exists s' values es,
    sess_run E (call it) s = (s', inr values) /\
    exec_item it (s, an) = ((s', an ++ es), inr tt) /\
    List.map key es = item_keys it.
Proof.
  intros Hwb Hit s an.
  destruct (Hwb (call it) s) as (s' & values & Hrun & Hlen).
  unfold exec_item, bind, run, item_keys. rewrite Hrun.
  destruct Hit as [Hnone | (ops & fd & Hcall & Hops)].
  - rewrite Hnone. exists s', values, []. rewrite app_nil_r. auto.
  - destruct (recorded it) as [[[name index] level]|].
    + specialize (Hlen _ _ Hcall).
      destruct values as [|loss rest].
      * destruct ops; [congruence | discriminate].
      * exists s', (loss :: rest). eexists. split; [reflexivity|].
        split; reflexivity.
    + exists s', values, []. rewrite app_nil_r. auto.
Qed.

Lemma exec_success (plan : list PlanItem) :
  well_behaved E -> Forall fetches_when_recorded plan ->
  forall s an, exists s' es,
    exec plan (s, an) = ((s', an ++ es), inr tt) /\
    List.map key es = List.flat_map item_keys plan /\
    run_calls E (List.map call plan) s = Some s'.
Proof.
  intros Hwb Hplan. induction Hplan as [|it plan Hit _ IH]; intros s an.
  - exists s, []. rewrite app_nil_r. auto.
  - destruct (exec_item_success it Hwb Hit s an)
      as (s1 & values & es1 & Hrun & Hitem & Hkeys1).
    destruct (IH s1 (an ++ es1)) as (s2 & es2 & Hrest & Hkeys2 & Hcalls).
    exists s2, (es1 ++ es2). unfold exec in *. cbn [for_each].
    unfold bind. rewrite Hitem. cbv beta iota.
    rewrite Hrest, <- app_assoc. split; [reflexivity|]. split.
    + cbn [List.flat_map]. rewrite List.map_app. congruence.
    + cbn [List.map run_calls]. rewrite Hrun. exact Hcalls.
Qed.

(** *** The same plan on the logging engine *)

Lemma exec_item_logging (it : PlanItem) s log an :
  exec_item (E:=logging E) it ((s, log), an)
  = match exec_item (E:=E) it (s, an) with
    | ((s1, an1), r) => (((s1, log ++ [call it]), an1), r)
    end.
Proof.
  unfold exec_item, bind, run. cbn [sess_run logging fst snd].
  destruct (sess_run E (call it) s) as [s1 [e|values]]; [reflexivity|].
  destruct (recorded it) as [[[name index] level]|]; [|reflexivity].
  destruct (py_getitem values 0); reflexivity.
Qed.

Lemma exec_logging_success (plan : list PlanItem) :
  forall s log an s1 an1,
    exec (E:=E) plan (s, an) = ((s1, an1), inr tt) ->
    exec (E:=logging E) plan ((s, log), an)
    = (((s1, log ++ List.map call plan), an1), inr tt).
Proof.
  unfold exec. induction plan as [|it plan IH]; intros s log an s1 an1 H.
  - cbn in H |- *. injection H as -> ->. now rewrite app_nil_r.
  - cbn [for_each] in H |- *. unfold bind in H |- *.
    rewrite exec_item_logging.
    destruct (exec_item it (s, an)) as [[s2 an2] [e|u]]; [discriminate|].
    rewrite (IH _ _ _ _ _ H). cbn [List.map]. now rewrite <- app_assoc.
Qed.

(** A plan that raises: the calls before the failing one all returned,
    the failing call is the last one made, and the session is left as that
    call left it. *)
Lemma exec_failure (plan : list PlanItem) :
  forall s an s' an' e,
    exec plan (s, an) = ((s', an'), inl e) ->
    exists pre it post s_pre,
      plan = pre ++ it :: post /\
      run_calls E (List.map call pre) s = Some s_pre /\
      (sess_run E (call it) s_pre = (s', inl e) \/
       e = IndexError /\ sess_run E (call it) s_pre = (s', inr [])) /\
      forall log,
        exec (E:=logging E) plan ((s, log), an)
        = (((s', log ++ List.map call pre ++ [call it]), an'), inl e).
Proof.
  induction plan as [|it plan IH]; intros s an s' an' e Hexec.
  - discriminate.
  - unfold exec in Hexec. cbn [for_each] in Hexec.
    unfold bind in Hexec.
    destruct (exec_item it (s, an)) as [[s1 an1] [e1|u]] eqn:Hitem.
    + injection Hexec as -> -> ->.
      exists [], it, plan, s. split; [reflexivity|]. split; [reflexivity|].
      split.
      * unfold exec_item, bind, run in Hitem.
        destruct (sess_run E (call it) s) as [s2 [e2|values]] eqn:Hrun.
        -- injection Hitem as -> _ ->. now left.
        -- destruct (recorded it) as [[[name index] level]|];
             [|discriminate].
           destruct values as [|loss rest]; [|discriminate].
           injection Hitem as -> _ <-. right. split; reflexivity.
      * intros log. unfold exec. cbn [for_each]. unfold bind.
        rewrite exec_item_logging, Hitem. reflexivity.
    + destruct (IH s1 an1 s' an' e Hexec)
        as (pre & it' & post & s_pre & Hplan & Hpre & Hfail & Hlog).
      exists (it :: pre), it', post, s_pre.
      split; [now rewrite Hplan|]. split; [|split; [exact Hfail|]].
      * cbn [List.map run_calls].
        unfold exec_item, bind, run in Hitem.
        destruct (sess_run E (call it) s) as [s2 [e2|values]] eqn:Hrun;
          [discriminate|].
        destruct (recorded it) as [[[name index] level]|].
        -- destruct (py_getitem values 0); [|discriminate].
           unfold record in Hitem. injection Hitem as -> _. exact Hpre.
        -- injection Hitem as -> _. exact Hpre.
      * intros log. unfold exec in *. cbn [for_each]. unfold bind.
        rewrite exec_item_logging, Hitem. cbv beta iota.
        etransitivity; [apply Hlog|].
        cbn [List.map app]. now rewrite <- app_assoc.
Qed.

(** *** The shape of the plan *)

Lemma plan_calls (vars : list SparsePruningOpVars) (a : Args) :
  List.map call (one_shot_plan vars a) = one_shot_calls vars a.
Proof.
  unfold one_shot_plan, one_shot_calls. cbn [List.map init_item call].
  f_equal. rewrite map_flat_map. unfold enumerate.
  apply flat_map_enumerate. intros i v.
  unfold op_plan, op_calls. cbn [fst snd].
  rewrite List.map_app. cbn [List.map update_item call]. f_equal.
  rewrite map_flat_map. apply flat_map_ext'. intros level.
  unfold level_plan. cbn [List.map update_item call]. f_equal.
  rewrite List.map_map. reflexivity.
Qed.

Lemma plan_keys (vars : list SparsePruningOpVars) (a : Args) :
  List.flat_map item_keys (one_shot_plan vars a)
  = List.flat_map
      (fun x =>
         List.flat_map
           (fun level =>
              List.map
                (fun _ : Z =>
                   (fst x, op_input_name (op_vars (snd x)), level,
                    Qlt_bool level Approx.eps))
                (py_range (steps_per_measurement a)))
           (sparsity_levels a))
      (enumerate vars).
Proof.
  unfold one_shot_plan. cbn [List.flat_map init_item item_keys recorded app].
  rewrite flat_map_flat_map. apply flat_map_ext'. intros [i v].
  unfold op_plan. cbn [fst snd]. rewrite List.flat_map_app.
  cbn [List.flat_map update_item item_keys recorded app].
  rewrite app_nil_r, flat_map_flat_map.
  apply flat_map_ext'. intros level.
  unfold level_plan. cbn [List.flat_map update_item item_keys recorded app].
  induction (py_range (steps_per_measurement a)) as [|st l IH];
    [reflexivity|].
  cbn [List.map List.flat_map step_item item_keys recorded app].
  now rewrite IH.
Qed.

Lemma plan_fetches (vars : list SparsePruningOpVars) (a : Args) :
  Forall fetches_when_recorded (one_shot_plan vars a).
Proof.
  unfold one_shot_plan. constructor; [now left|].
  apply List.Forall_flat_map. apply List.Forall_forall. intros [i v] _.
  unfold op_plan. apply List.Forall_app. split.
  - apply List.Forall_flat_map. apply List.Forall_forall. intros level _.
    unfold level_plan. constructor; [now left|].
    apply List.Forall_map. apply List.Forall_forall. intros step _.
    right. exists (step_ops a step), (step_feed a step).
    split; [reflexivity|]. unfold step_ops.
    destruct (add_ops_creator a) as [f|]; [|discriminate].
    destruct (f step); discriminate.
  - constructor; [now left | constructor].
Qed.

End OneShotFacts.

Section OneShotTheorems.
Import Py Analysis OneShot.



Lemma last_update_app (l1 l2 : list RunCall) (u : string) :
  last_update (l1 ++ l2) u
  = match last_update l2 u with
    | Some q => Some q
    | None => last_update l1 u
    end.
Proof.
  induction l1 as [|c l1 IH]; cbn [app last_update].
  - now destruct (last_update l2 u).
  - rewrite IH. now destruct (last_update l2 u).
Qed.

Lemma last_update_none (l : list RunCall) (u : string) :
  Forall (fun c => match c with
                   | RunUpdate u' _ _ => String.eqb u' u = false
                   | _ => True
                   end) l ->
  last_update l u = None.
Proof.
  induction 1 as [|c l Hc _ IH]; [reflexivity|].
  cbn [last_update]. rewrite IH.
  destruct c; try reflexivity. now rewrite Hc.
Qed.

Lemma last_update_op_calls (a : Args) (v : SparsePruningOpVars) (u : string) :
  last_update (op_calls a v) u
  = if String.eqb (update (op_vars v)) u then Some 0%Q else None.
Proof.
  unfold op_calls. rewrite last_update_app. cbn [last_update].
  destruct (String.eqb (update (op_vars v)) u) eqn:Hu; [reflexivity|].
  apply last_update_none.
  apply List.Forall_flat_map, List.Forall_forall. intros level _.
  constructor; [exact Hu|].
  apply List.Forall_map, List.Forall_forall. intros step _. exact I.
Qed.

Lemma last_update_reset (a : Args) (first : RunCall)
    (pre : list SparsePruningOpVars) :
  forall u, In u pre ->
    last_update (first :: List.flat_map (op_calls a) pre)
      (update (op_vars u)) = Some 0%Q.
Proof.
  induction pre as [|v pre IH] using rev_ind; intros u Hu; [destruct Hu|].
  rewrite List.flat_map_app. cbn [List.flat_map]. rewrite app_nil_r.
  rewrite app_comm_cons, last_update_app, last_update_op_calls.
  destruct (String.eqb (update (op_vars v)) (update (op_vars u))) eqn:Heq;
    [reflexivity|].
  apply List.in_app_or in Hu. destruct Hu as [Hu|[->|[]]].
  - now apply IH.
  - now rewrite String.eqb_refl in Heq.
Qed.

(** C5.  On a session that never raises, the calls the sweep makes are
    exactly [one_shot_calls]: the initializer, then for each op its block
    [op_calls], which ends with the mask update at sparsity 0.  Hence,
    when the block of an op begins, the sparsity last fed to the mask of
    every op swept before it is 0. *)
Theorem one_shot_resets_each_mask (E : Engine)
    (vars : list SparsePruningOpVars) (a : Args) (sess : sess_state E) :
  well_behaved E ->
  (exists sess' analysis,
     one_shot_ks_loss_sensitivity (logging E) vars a (sess, [])
     = ((sess', one_shot_calls vars a), inr analysis)) /\
  (forall pre v post, vars = pre ++ v :: post ->
     let before :=
       RunInitializer (List.map (fun x => mask (op_vars x)) vars)
       :: List.flat_map (op_calls a) pre in
     one_shot_calls vars a
     = before ++ op_calls a v ++ List.flat_map (op_calls a) post /\
     (exists levels_and_steps,
        op_calls a v
        = levels_and_steps
          ++ [RunUpdate (update (op_vars v)) (sparsity v) 0]) /\
     forall u, In u pre ->
       last_update before (update (op_vars u)) = Some 0%Q).
Proof.
  intros Hwb. split.
  - unfold one_shot_ks_loss_sensitivity. rewrite one_shot_body_exec.
    destruct (exec_success (one_shot_plan vars a) Hwb (plan_fetches vars a)
                sess []) as (sess' & es & Hexec & _ & _).
    rewrite (exec_logging_success _ _ _ _ _ _ Hexec).
    cbn [app]. rewrite plan_calls. now exists sess', es.
  - intros pre v post Hvars before. split; [|split].
    + unfold one_shot_calls, before. rewrite Hvars at 2.
      rewrite List.flat_map_app. cbn [List.flat_map]. reflexivity.
    + eexists. reflexivity.
    + intros u Hu. now apply last_update_reset.
Qed.

(** C9, as amended.  When the sweep raises, the caller receives that
    exception: the calls made are a prefix of [one_shot_calls] that ends
    with the failing call (each made once, none after it, so no retry and
    no reset of the mask), every earlier call had returned, and the
    session is left exactly as the failing call left it.  The outcome
    carries no analysis. *)
Theorem one_shot_error_propagates (E : Engine)
    (vars : list SparsePruningOpVars) (a : Args)
    (sess sess' : sess_state E) (e : exn) :
  one_shot_ks_loss_sensitivity E vars a sess = (sess', inl e) ->
  returned_analysis (one_shot_ks_loss_sensitivity E vars a sess) = None /\
  exists pre c post s_pre,
    one_shot_calls vars a = pre ++ c :: post /\
    run_calls E pre sess = Some s_pre /\
    (sess_run E c s_pre = (sess', inl e) \/
     e = IndexError /\ sess_run E c s_pre = (sess', inr [])) /\
    one_shot_ks_loss_sensitivity (logging E) vars a (sess, [])
    = ((sess', pre ++ [c]), inl e).
Proof.
  intros H. split; [now rewrite H|].
  unfold one_shot_ks_loss_sensitivity in H |- *.
  rewrite one_shot_body_exec in H.
  destruct (exec (one_shot_plan vars a) (sess, []))
    as [[s1 an1] [e1|u]] eqn:Hexec; [|discriminate].
  injection H as -> ->.
  destruct (exec_failure _ _ _ _ _ _ Hexec)
    as (pre & it & post & s_pre & Hplan & Hpre & Hfail & Hlog).
  exists (List.map call pre), (call it), (List.map call post), s_pre.
  split; [|split; [exact Hpre | split; [exact Hfail|]]].
  - rewrite <- plan_calls, Hplan, List.map_app. reflexivity.
  - rewrite one_shot_body_exec, Hlog. reflexivity.
Qed.

End OneShotTheorems.

Section OneShotExamples.
Import Py Analysis OneShot Sim.
Local Open Scope string_scope.

Lemma sim_well_behaved (loss_of : nat -> pyfloat) :
  well_behaved (engine loss_of None).
Proof.
  intros c s. destruct c as [masks | u ph level | ops fd]; cbn.
  - do 2 eexists. split; [reflexivity | discriminate].
  - do 2 eexists. split; [reflexivity | discriminate].
  - do 2 eexists. split; [reflexivity|].
    intros ops' fd' Heq. injection Heq as <- _. apply List.length_map.
Qed.


Lemma one_shot_resets_each_mask_witness :
  well_behaved (engine (ramp 0) None) /\
  exists sess' analysis,
    one_shot_ks_loss_sensitivity (logging (engine (ramp 0) None))
      [layer "fc1"; layer "fc2"] (args 1 [1 # 2]%Q) (fresh, [])
    = ((sess',
        [RunInitializer ["fc1/mask"; "fc2/mask"];
         RunUpdate "fc1/update" "fc1/sparsity_placeholder" (1 # 2);
         RunFetch ["loss"] None;
         RunUpdate "fc1/update" "fc1/sparsity_placeholder" 0;
         RunUpdate "fc2/update" "fc2/sparsity_placeholder" (1 # 2);
         RunFetch ["loss"] None;
         RunUpdate "fc2/update" "fc2/sparsity_placeholder" 0]),
       inr analysis).
Proof.
  split; [apply sim_well_behaved|].
  exact (proj1 (one_shot_resets_each_mask (engine (ramp 0) None)
                  [layer "fc1"; layer "fc2"] (args 1 [1 # 2]%Q) fresh
                  (sim_well_behaved (ramp 0)))).
Defined.

(** The second measurement of the first level fails. *)
Lemma one_shot_error_propagates_witness :
  one_shot_ks_loss_sensitivity (engine (ramp 0) (Some 1%nat))
    [layer "fc1"; layer "fc2"] (args 2 [1 # 2; 9 # 10]%Q) fresh
  = ({| sim_masks := [("fc1/update", 1 # 2)]; sim_fetches := 1 |},
     inl (EngineError "session run failed")) /\
  exists pre c post s_pre,
    one_shot_calls [layer "fc1"; layer "fc2"] (args 2 [1 # 2; 9 # 10]%Q)
    = (pre ++ c :: post)%list /\
    run_calls (engine (ramp 0) (Some 1%nat)) pre fresh = Some s_pre /\
    (sess_run (engine (ramp 0) (Some 1%nat)) c s_pre
     = ({| sim_masks := [("fc1/update", 1 # 2)]; sim_fetches := 1 |},
        inl (EngineError "session run failed")) \/
     EngineError "session run failed" = IndexError /\
     sess_run (engine (ramp 0) (Some 1%nat)) c s_pre
     = ({| sim_masks := [("fc1/update", 1 # 2)]; sim_fetches := 1 |},
        inr [])) /\
    one_shot_ks_loss_sensitivity (logging (engine (ramp 0) (Some 1%nat)))
      [layer "fc1"; layer "fc2"] (args 2 [1 # 2; 9 # 10]%Q) (fresh, [])
    = (({| sim_masks := [("fc1/update", 1 # 2)]; sim_fetches := 1 |},
        (pre ++ [c])%list),
       inl (EngineError "session run failed")).
Proof.
  split; [reflexivity|].
  exact (proj2 (one_shot_error_propagates (engine (ramp 0) (Some 1%nat))
                  [layer "fc1"; layer "fc2"] (args 2 [1 # 2; 9 # 10]%Q)
                  fresh _ _ eq_refl)).
Defined.

(** C9, as stated, fails.  With one layer, the level 0.5 and two steps,
    the first measurement is filed in the analysis object and the second
    one raises.  The caller is left with the session (the mask still at
    0.5) and the exception, and with no analysis: two sessions that differ
    only in the loss they measured first give the caller the very same
    outcome, although the records filed before the failure differ. *)
Lemma one_shot_partial_results_counterexample :
  one_shot_body (E := engine (ramp 7) (Some 1%nat)) [layer "fc1"]
    (args 2 [1 # 2]%Q) (fresh, [])
  = (({| sim_masks := [("fc1/update", 1 # 2)]; sim_fetches := 1 |},
      [{| res_id := None; res_name := "fc1/weight"; res_index := 0%nat;
          res_sparsity := 1 # 2; res_value := ramp 7 0;
          res_baseline := false |}]),
     inl (EngineError "session run failed"))
  /\ one_shot_ks_loss_sensitivity (engine (ramp 7) (Some 1%nat))
       [layer "fc1"] (args 2 [1 # 2]%Q) fresh
     = ({| sim_masks := [("fc1/update", 1 # 2)]; sim_fetches := 1 |},
        inl (EngineError "session run failed"))
  /\ returned_analysis
       (one_shot_ks_loss_sensitivity (engine (ramp 7) (Some 1%nat))
          [layer "fc1"] (args 2 [1 # 2]%Q) fresh) = None
  /\ one_shot_ks_loss_sensitivity (engine (ramp 7) (Some 1%nat))
       [layer "fc1"] (args 2 [1 # 2]%Q) fresh
     = one_shot_ks_loss_sensitivity (engine (ramp 8) (Some 1%nat))
         [layer "fc1"] (args 2 [1 # 2]%Q) fresh
  /\ snd (fst (one_shot_body (E := engine (ramp 7) (Some 1%nat))
                 [layer "fc1"] (args 2 [1 # 2]%Q) (fresh, [])))
     <> snd (fst (one_shot_body (E := engine (ramp 8) (Some 1%nat))
                    [layer "fc1"] (args 2 [1 # 2]%Q) (fresh, []))).
Proof.
  split; [reflexivity|]. split; [reflexivity|]. split; [reflexivity|].
  split; [reflexivity|]. cbn. intros Heq. discriminate Heq.
Qed.

End OneShotExamples.

Section OneShotMore.
Import Py Analysis OneShot Sim.

(** X4.  The nested loops make a fixed sequence of session calls: the
    function is the flat plan [one_shot_plan], run call by call up to the
    first one that raises. *)
Theorem one_shot_is_its_plan (E : Engine)
    (vars : list SparsePruningOpVars) (a : Args) (sess : sess_state E) :
  one_shot_ks_loss_sensitivity E vars a sess
  = match exec (one_shot_plan vars a) (sess, []) with
    | ((sess', _), inl e) => (sess', inl e)
    | ((sess', analysis), inr _) => (sess', inr analysis)
    end.
Proof.
  unfold one_shot_ks_loss_sensitivity. now rewrite one_shot_body_exec.
Qed.

(** X5.  When the sweep returns, the mask update op of every op it swept
    has last been run with sparsity 0. *)
Theorem one_shot_leaves_masks_reset (E : Engine)
    (vars : list SparsePruningOpVars) (a : Args) (sess : sess_state E) :
  well_behaved E ->
  exists sess' calls analysis,
    one_shot_ks_loss_sensitivity (logging E) vars a (sess, [])
    = ((sess', calls), inr analysis) /\
    forall v, In v vars ->
      last_update calls (update (op_vars v)) = Some 0%Q.
Proof.
  intros Hwb. unfold one_shot_ks_loss_sensitivity.
  rewrite one_shot_body_exec.
  destruct (exec_success (one_shot_plan vars a) Hwb (plan_fetches vars a)
              sess []) as (sess' & es & Hexec & _ & _).
  rewrite (exec_logging_success _ _ _ _ _ _ Hexec).
  cbn [app]. rewrite plan_calls.
  exists sess', (one_shot_calls vars a), es. split; [reflexivity|].
  intros v Hv. unfold one_shot_calls. now apply last_update_reset.
Qed.

Lemma one_shot_leaves_masks_reset_witness :
  well_behaved (engine (ramp 0) None) /\
  exists sess' calls analysis,
    one_shot_ks_loss_sensitivity (logging (engine (ramp 0) None))
      [layer "fc1"; layer "fc2"] (args 2 [0; 1 # 2; 99 # 100]%Q) (fresh, [])
    = ((sess', calls), inr analysis) /\
    forall v, In v [layer "fc1"; layer "fc2"] ->
      last_update calls (update (op_vars v)) = Some 0%Q.
Proof.
  split; [apply sim_well_behaved|].
  exact (one_shot_leaves_masks_reset (engine (ramp 0) None)
           [layer "fc1"; layer "fc2"] (args 2 [0; 1 # 2; 99 # 100]%Q) fresh
           (sim_well_behaved (ramp 0))).
Defined.

End OneShotMore.

(** *** What the sweep asks of the session, and what it keeps *)

Section OneShotTrace.
Import Py Analysis OneShot Trace Sim.

Lemma plan_filed_iff_fetch (vars : list SparsePruningOpVars) (a : Args) :
  Forall filed_iff_fetch (one_shot_plan vars a).
Proof.
  unfold one_shot_plan. constructor; [exact I|].
  apply List.Forall_flat_map, List.Forall_forall. intros [i v] _.
  unfold op_plan. apply List.Forall_app. split.
  - apply List.Forall_flat_map, List.Forall_forall. intros level _.
    unfold level_plan. constructor; [exact I|].
    apply List.Forall_map, List.Forall_forall. intros step _. exact I.
  - constructor; [exact I | constructor].
Qed.

Lemma exec_measured (E : Engine) (plan : list PlanItem) :
  well_behaved E -> Forall fetches_when_recorded plan ->
  Forall filed_iff_fetch plan ->
  forall s an, exists s' es,
    exec (E:=E) plan (s, an) = ((s', an ++ es), inr tt) /\
    List.map res_value es = measured_losses E (List.map call plan) s.
Proof.
  intros Hwb Hplan Hfiled. revert Hfiled.
  induction Hplan as [|it plan Hit _ IH]; intros Hfiled s an.
  - exists s, []. rewrite app_nil_r. auto.
  - inversion Hfiled as [|? ? Hf Hrest]; subst.
    destruct (Hwb (call it) s) as (s1 & values & Hrun & Hlen).
    assert (exists es1,
              exec_item it (s, an) = ((s1, an ++ es1), inr tt) /\
              forall tail,
                List.map res_value es1 ++ tail
                = match call it, values with
                  | RunFetch _ _, loss :: _ => loss :: tail
                  | _, _ => tail
                  end) as (es1 & Hitem & Hvals).
    { unfold exec_item, bind, run. rewrite Hrun.
      unfold filed_iff_fetch in Hf.
      destruct Hit as [Hnone | (ops & fd & Hcall & Hops)].
      - rewrite Hnone in Hf |- *. exists []. rewrite app_nil_r.
        split; [reflexivity|]. intros tail.
        destruct (call it); try reflexivity. destruct Hf.
      - rewrite Hcall in Hf |- *. specialize (Hlen _ _ Hcall).
        destruct (recorded it) as [[[name index] level]|]; [|destruct Hf].
        destruct values as [|loss rest];
          [destruct ops; [congruence | discriminate]|].
        eexists. split; [reflexivity|]. intros tail. reflexivity. }
    destruct (IH Hrest s1 (an ++ es1)) as (s2 & es2 & Hexec & Hvals2).
    exists s2, (es1 ++ es2). unfold exec in *. cbn [for_each].
    unfold bind. rewrite Hitem. cbv beta iota.
    rewrite Hexec, <- app_assoc. split; [reflexivity|].
    cbn [List.map measured_losses]. rewrite Hrun.
    rewrite List.map_app, Hvals2. apply Hvals.
Qed.

(** X10.  On a session that never raises and returns one value per
    fetched op, the values of the returned records are, in order, the
    first value the session returned for each fetch of the sweep: the
    value of [loss_tensor]; what the session returns for the ops of
    [add_ops_creator] is dropped, no fetch is skipped and none is filed
    twice. *)
Theorem one_shot_keeps_first_fetched_value (E : Engine)
    (vars : list SparsePruningOpVars) (a : Args) (sess : sess_state E) :
  well_behaved E ->
  exists sess' analysis,
    one_shot_ks_loss_sensitivity E vars a sess = (sess', inr analysis) /\
    List.map res_value analysis
    = measured_losses E (one_shot_calls vars a) sess.
Proof.
  intros Hwb. unfold one_shot_ks_loss_sensitivity.
  rewrite one_shot_body_exec.
  destruct (exec_measured E (one_shot_plan vars a) Hwb (plan_fetches vars a)
              (plan_filed_iff_fetch vars a) sess [])
    as (sess' & es & Hexec & Hvals).
  rewrite Hexec. cbn [app]. exists sess', es.
  split; [reflexivity|]. now rewrite <- plan_calls.
Qed.

Lemma one_shot_keeps_first_fetched_value_witness :
  well_behaved (engine (ramp 3) None) /\
  exists sess' analysis,
    one_shot_ks_loss_sensitivity (engine (ramp 3) None)
      [layer "fc1"; layer "fc2"] (args 2 [0; 1 # 2]%Q) fresh
    = (sess', inr analysis) /\
    List.map res_value analysis
    = measured_losses (engine (ramp 3) None)
        (one_shot_calls [layer "fc1"; layer "fc2"] (args 2 [0; 1 # 2]%Q))
        fresh.
Proof.
  split; [apply sim_well_behaved|].
  exact (one_shot_keeps_first_fetched_value (engine (ramp 3) None)
           [layer "fc1"; layer "fc2"] (args 2 [0; 1 # 2]%Q) fresh
           (sim_well_behaved (ramp 3))).
Defined.

Lemma op_calls_length (a : Args) (v : SparsePruningOpVars) :
  List.length (op_calls a v)
  = (List.length (sparsity_levels a)
     * (1 + Z.to_nat (steps_per_measurement a)) + 1)%nat.
Proof.
  unfold op_calls. rewrite List.length_app. cbn [List.length].
  rewrite (flat_map_length_const _ (1 + Z.to_nat (steps_per_measurement a))).
  - reflexivity.
  - intros level. cbn [List.length]. unfold py_range.
    now rewrite !List.length_map, List.length_seq.
Qed.

(** X11.  What a sweep costs: on a session that never raises and returns
    one value per fetched op, the sweep returns after exactly
    [1 + len(op_vars) * (len(sparsity_levels) * (1 + steps) + 1)] calls of
    [sess.run], with [steps] the step count (0 when it is negative): the
    initializer, and per op one mask update per level, [steps] fetches per
    level and the final reset.  The session is left in the state those
    calls lead to, one after the other. *)
Theorem one_shot_call_count (E : Engine)
    (vars : list SparsePruningOpVars) (a : Args) (sess : sess_state E) :
  well_behaved E ->
  exists sess' calls analysis,
    one_shot_ks_loss_sensitivity (logging E) vars a (sess, [])
    = ((sess', calls), inr analysis) /\
    run_calls E calls sess = Some sess' /\
    len calls
    = 1 + len vars * (len (sparsity_levels a)
                      * (1 + Z.max 0 (steps_per_measurement a)) + 1).
Proof.
  intros Hwb. unfold one_shot_ks_loss_sensitivity.
  rewrite one_shot_body_exec.
  destruct (exec_success (one_shot_plan vars a) Hwb (plan_fetches vars a)
              sess []) as (sess' & es & Hexec & _ & Hcalls).
  rewrite (exec_logging_success _ _ _ _ _ _ Hexec).
  cbn [app]. rewrite plan_calls in *.
  exists sess', (one_shot_calls vars a), es.
  split; [reflexivity|]. split; [exact Hcalls|].
  unfold one_shot_calls, len. cbn [List.length].
  rewrite (flat_map_length_const _ _ _ (op_calls_length a)). lia.
Qed.

Lemma one_shot_call_count_witness :
  well_behaved (engine (ramp 0) None) /\
  exists sess' calls analysis,
    one_shot_ks_loss_sensitivity (logging (engine (ramp 0) None))
      [layer "fc1"; layer "fc2"] (args 2 [0; 1 # 2; 99 # 100]%Q) (fresh, [])
    = ((sess', calls), inr analysis) /\
    run_calls (engine (ramp 0) None) calls fresh = Some sess' /\
    len calls = 1 + 2 * (3 * (1 + 2) + 1).
Proof.
  split; [apply sim_well_behaved|].
  exact (one_shot_call_count (engine (ramp 0) None)
           [layer "fc1"; layer "fc2"] (args 2 [0; 1 # 2; 99 # 100]%Q) fresh
           (sim_well_behaved (ramp 0))).
Defined.

Lemma one_shot_calls_without_steps (vars : list SparsePruningOpVars)
    (a : Args) :
  steps_per_measurement a <= 0 ->
  one_shot_calls vars a
  = RunInitializer (List.map (fun v => mask (op_vars v)) vars)
    :: List.flat_map (updates_only (sparsity_levels a)) vars.
Proof.
  intros Hsteps. unfold one_shot_calls. f_equal.
  apply flat_map_ext'. intros v. unfold op_calls, updates_only.
  rewrite List.map_app. cbn [List.map]. f_equal.
  unfold py_range. replace (Z.to_nat (steps_per_measurement a)) with 0%nat
    by lia.
  cbn [List.seq List.map].
  induction (sparsity_levels a) as [|l ls IH]; [reflexivity|].
  cbn [List.flat_map List.map app]. now rewrite IH.
Qed.

(** X12.  With [steps_per_measurement] at 0 or below nothing is measured
    and the returned analysis is empty, but the session is still worked
    on: the masks are initialized and every op gets its mask update at
    each level and the final reset. *)
Theorem one_shot_without_steps (E : Engine)
    (vars : list SparsePruningOpVars) (a : Args) (sess : sess_state E) :
  well_behaved E ->
  steps_per_measurement a <= 0 ->
  exists sess',
    one_shot_ks_loss_sensitivity (logging E) vars a (sess, [])
    = ((sess',
        RunInitializer (List.map (fun v => mask (op_vars v)) vars)
        :: List.flat_map (updates_only (sparsity_levels a)) vars),
       inr []).
Proof.
  intros Hwb Hsteps. unfold one_shot_ks_loss_sensitivity.
  rewrite one_shot_body_exec.
  destruct (exec_success (one_shot_plan vars a) Hwb (plan_fetches vars a)
              sess []) as (sess' & es & Hexec & Hkeys & _).
  rewrite (exec_logging_success _ _ _ _ _ _ Hexec).
  cbn [app]. rewrite plan_calls, (one_shot_calls_without_steps _ _ Hsteps).
  exists sess'. do 2 f_equal.
  rewrite plan_keys in Hkeys.
  assert (List.length (List.map key es) = 0%nat) as Hlen.
  { rewrite Hkeys. rewrite (flat_map_length_const _ 0%nat); [lia|].
    intros x. rewrite (flat_map_length_const _ 0%nat); [lia|].
    intros level. unfold py_range.
    rewrite !List.length_map, List.length_seq. lia. }
  rewrite List.length_map in Hlen. now destruct es.
Qed.

Lemma one_shot_without_steps_witness :
  well_behaved (engine (ramp 0) None) /\
  steps_per_measurement (args 0 [0; 1 # 2]%Q) <= 0 /\
  exists sess',
    one_shot_ks_loss_sensitivity (logging (engine (ramp 0) None))
      [layer "fc1"; layer "fc2"] (args 0 [0; 1 # 2]%Q) (fresh, [])
    = ((sess',
        [RunInitializer ["fc1/mask"; "fc2/mask"]%string;
         RunUpdate "fc1/update" "fc1/sparsity_placeholder" 0;
         RunUpdate "fc1/update" "fc1/sparsity_placeholder" (1 # 2);
         RunUpdate "fc1/update" "fc1/sparsity_placeholder" 0;
         RunUpdate "fc2/update" "fc2/sparsity_placeholder" 0;
         RunUpdate "fc2/update" "fc2/sparsity_placeholder" (1 # 2);
         RunUpdate "fc2/update" "fc2/sparsity_placeholder" 0]),
       inr []).
Proof.
  assert (steps_per_measurement (args 0 [0; 1 # 2]%Q) <= 0) as H
    by (cbn; lia).
  split; [apply sim_well_behaved | split; [exact H|]].
  exact (one_shot_without_steps (engine (ramp 0) None)
           [layer "fc1"; layer "fc2"] (args 0 [0; 1 # 2]%Q) fresh
           (sim_well_behaved (ramp 0)) H).
Defined.

End OneShotTrace.

(** ** Injecting the pruning ops *)

Section OpVarsFacts.
Import Py OneShot OpVars.

Context (B : Builder).

Lemma inject_op_success (mc : creator B) (x : op B * tensor B)
    (g g' : graph B) (v : SparsePruningOpVars) :
  inject_op B mc x g = (g', inr v) -> injected B mc x g v g'.
Proof.
  unfold inject_op, injected. destruct x as [o input]. cbn [fst snd].
  destruct (placeholder B _ _ g) as [g1 [e|sp]] eqn:Hp; [discriminate|].
  destruct (constant_true B _ g1) as [g2 [e|upd]] eqn:Hu; [discriminate|].
  destruct (create_op_pruning B o input sp upd true None ks_group mc g2)
    as [g3 [e|pv]] eqn:Hc; [discriminate|].
  intros H. injection H as <- <-. cbn [sparsity op_vars].
  exists g1, g2, upd. split; [reflexivity|]. split; [exact Hu | exact Hc].
Qed.

Lemma inject_loop_success (mc : creator B) (l : list (op B * tensor B)) :
  forall acc g g' vars,
    inject_loop B mc l acc g = (g', inr vars) ->
    exists made, vars = acc ++ made /\ injected_all B mc l g made g'.
Proof.
  induction l as [|x l IH]; intros acc g g' vars H; cbn [inject_loop] in H.
  - injection H as <- <-. exists []. rewrite app_nil_r.
    split; [reflexivity | constructor].
  - destruct (inject_op B mc x g) as [g1 [e|v]] eqn:Hop; [discriminate|].
    destruct (IH _ _ _ _ H) as (made & -> & Hall).
    exists (v :: made). rewrite <- app_assoc. split; [reflexivity|].
    econstructor; [apply inject_op_success; exact Hop | exact Hall].
Qed.

Lemma inject_loop_failure (mc : creator B) (l : list (op B * tensor B)) :
  forall acc g g' e,
    inject_loop B mc l acc g = (g', inl e) ->
    exists pre x post made g1,
      l = pre ++ x :: post /\
      injected_all B mc pre g made g1 /\
      injection_fails B mc x g1 e g'.
Proof.
  induction l as [|x l IH]; intros acc g g' e H; cbn [inject_loop] in H;
    [discriminate|].
  destruct (inject_op B mc x g) as [g1 [e1|v]] eqn:Hop.
  - injection H as <- <-. exists [], x, l, [], g.
    split; [reflexivity|]. split; [constructor | exact Hop].
  - destruct (IH _ _ _ _ H) as (pre & y & post & made & g2 & -> & Hall & Hf).
    exists (x :: pre), y, post, (v :: made), g2.
    split; [reflexivity|]. split; [|exact Hf].
    econstructor; [apply inject_op_success; exact Hop | exact Hall].
Qed.

Lemma injected_all_length (mc : creator B) (l : list (op B * tensor B))
    (g g' : graph B) (vars : list SparsePruningOpVars) :
  injected_all B mc l g vars g' -> List.length vars = List.length l.
Proof. induction 1; cbn [List.length]; congruence. Qed.

End OpVarsFacts.

Section OpVarsTheorems.
Import Py OneShot OpVars SimGraph.

(** X13.  When [ks_loss_sensitivity_op_vars] returns, it returns one
    [SparsePruningOpVars] per prunable op the lookup found, in the order
    of the lookup: the graph used is the one given, or the default graph
    when none is; the mask creator is the one given, or the one loaded
    from the name or block shape; and each entry pairs what
    [create_op_pruning] made for its op with the very placeholder that was
    handed to [create_op_pruning], made in the op's scope of the group
    [one_shot_ks_loss_sensitivity]. *)
Theorem op_vars_one_per_prunable_op (B : Builder)
    (default_graph : graph B) (graph_arg : option (graph B))
    (var_names : list string) (mask_type : MaskTypeArg (creator B))
    (g' : graph B) (vars : list SparsePruningOpVars) :
  ks_loss_sensitivity_op_vars B default_graph graph_arg var_names mask_type
  = (g', inr vars) ->
  let g := match graph_arg with Some g => g | None => default_graph end in
  exists mask_creator prunable,
    resolve_mask_creator B mask_type = inr mask_creator /\
    (forall c, mask_type = MaskCreator c -> mask_creator = c) /\
    get_ops_and_inputs_by_name_or_regex B var_names g = inr prunable /\
    injected_all B mask_creator prunable g vars g' /\
    List.length vars = List.length prunable.
Proof.
  intros H g. unfold ks_loss_sensitivity_op_vars in H. fold g in H.
  destruct (resolve_mask_creator B mask_type) as [e|mc] eqn:Hmc;
    [discriminate|].
  destruct (get_ops_and_inputs_by_name_or_regex B var_names g)
    as [e|prunable] eqn:Hops; [discriminate|].
  destruct (inject_loop_success B mc prunable _ _ _ _ H)
    as (made & -> & Hall).
  exists mc, prunable. cbn [app]. split; [reflexivity|].
  split; [|split; [reflexivity | split; [exact Hall|]]].
  - intros c ->. cbn in Hmc. congruence.
  - exact (injected_all_length B mc _ _ _ _ Hall).
Qed.

Lemma op_vars_one_per_prunable_op_witness :
  ks_loss_sensitivity_op_vars (builder None) [] None
    ["fc1"; "fc2"]%string (MaskName "unstructured")
  = (["fc1/one_shot_ks_loss_sensitivity/sparsity_placeholder";
      "fc1/one_shot_ks_loss_sensitivity/Const";
      "fc1/mask"; "fc1/update";
      "fc2/one_shot_ks_loss_sensitivity/sparsity_placeholder";
      "fc2/one_shot_ks_loss_sensitivity/Const";
      "fc2/mask"; "fc2/update"]%string,
     inr [{| op_vars := {| mask := "fc1/mask"; update := "fc1/update";
                           op_input_name := "fc1/weight" |};
             sparsity :=
               "fc1/one_shot_ks_loss_sensitivity/sparsity_placeholder" |};
          {| op_vars := {| mask := "fc2/mask"; update := "fc2/update";
                           op_input_name := "fc2/weight" |};
             sparsity :=
               "fc2/one_shot_ks_loss_sensitivity/sparsity_placeholder" |}])
  /\ exists mask_creator prunable,
       resolve_mask_creator (builder None) (MaskName "unstructured")
       = inr mask_creator /\
       get_ops_and_inputs_by_name_or_regex (builder None)
         ["fc1"; "fc2"]%string [] = inr prunable /\
       List.length prunable = 2%nat.
Proof.
  assert (ks_loss_sensitivity_op_vars (builder None) [] None
            ["fc1"; "fc2"]%string (MaskName "unstructured")
          = (["fc1/one_shot_ks_loss_sensitivity/sparsity_placeholder";
              "fc1/one_shot_ks_loss_sensitivity/Const";
              "fc1/mask"; "fc1/update";
              "fc2/one_shot_ks_loss_sensitivity/sparsity_placeholder";
              "fc2/one_shot_ks_loss_sensitivity/Const";
              "fc2/mask"; "fc2/update"]%string,
             inr [{| op_vars := {| mask := "fc1/mask";
                                   update := "fc1/update";
                                   op_input_name := "fc1/weight" |};
                     sparsity :=
                       "fc1/one_shot_ks_loss_sensitivity/sparsity_placeholder"
                  |};
                  {| op_vars := {| mask := "fc2/mask";
                                   update := "fc2/update";
                                   op_input_name := "fc2/weight" |};
                     sparsity :=
                       "fc2/one_shot_ks_loss_sensitivity/sparsity_placeholder"
                  |}])) as H by reflexivity.
  split; [exact H|].
  destruct (op_vars_one_per_prunable_op _ _ _ _ _ _ _ H)
    as (mc & prunable & Hmc & _ & Hops & _ & Hlen).
  exists mc, prunable. split; [exact Hmc|]. split; [exact Hops|].
  now rewrite <- Hlen.
Defined.

(** X14.  When [ks_loss_sensitivity_op_vars] raises, either the graph
    has not been touched (the mask type was rejected by
    [load_mask_creator], which is asked before anything else, or the
    lookup of the prunable ops failed), or the loop failed at some op:
    then the pruning ops of every op before it have been injected and
    stay in the graph, nothing is undone, and the op vars made for them
    are not returned. *)
Theorem op_vars_failure_cases (B : Builder)
    (default_graph : graph B) (graph_arg : option (graph B))
    (var_names : list string) (mask_type : MaskTypeArg (creator B))
    (g' : graph B) (e : exn) :
  ks_loss_sensitivity_op_vars B default_graph graph_arg var_names mask_type
  = (g', inl e) ->
  let g := match graph_arg with Some g => g | None => default_graph end in
  (resolve_mask_creator B mask_type = inl e /\ g' = g) \/
  (exists mask_creator,
     resolve_mask_creator B mask_type = inr mask_creator /\
     get_ops_and_inputs_by_name_or_regex B var_names g = inl e /\ g' = g) \/
  (exists mask_creator pre x post made g1,
     resolve_mask_creator B mask_type = inr mask_creator /\
     get_ops_and_inputs_by_name_or_regex B var_names g
     = inr (pre ++ x :: post) /\
     injected_all B mask_creator pre g made g1 /\
     injection_fails B mask_creator x g1 e g').
Proof.
  intros H g. unfold ks_loss_sensitivity_op_vars in H. fold g in H.
  destruct (resolve_mask_creator B mask_type) as [e1|mc] eqn:Hmc.
  - injection H as <- <-. now left.
  - right.
    destruct (get_ops_and_inputs_by_name_or_regex B var_names g)
      as [e1|prunable] eqn:Hops.
    + injection H as <- <-. left. now exists mc.
    + right. destruct (inject_loop_failure B mc prunable _ _ _ _ H)
        as (pre & x & post & made & g1 & -> & Hall & Hf).
      exists mc, pre, x, post, made, g1. auto.
Qed.

(** The second of three ops cannot be pruned: the first op keeps its
    pruning ops, the second its placeholder and constant. *)
Lemma op_vars_failure_cases_witness :
  ks_loss_sensitivity_op_vars (builder (Some "fc2"%string)) [] None
    ["fc1"; "fc2"; "fc3"]%string (MaskName "unstructured")
  = (["fc1/one_shot_ks_loss_sensitivity/sparsity_placeholder";
      "fc1/one_shot_ks_loss_sensitivity/Const";
      "fc1/mask"; "fc1/update";
      "fc2/one_shot_ks_loss_sensitivity/sparsity_placeholder";
      "fc2/one_shot_ks_loss_sensitivity/Const"]%string,
     inl (EngineError "create_op_pruning failed"))
  /\ exists mask_creator pre x post made g1,
       get_ops_and_inputs_by_name_or_regex (builder (Some "fc2"%string))
         ["fc1"; "fc2"; "fc3"]%string []
       = inr (pre ++ x :: post)%list /\
       injected_all (builder (Some "fc2"%string)) mask_creator pre [] made g1
       /\ injection_fails (builder (Some "fc2"%string)) mask_creator x g1
            (EngineError "create_op_pruning failed")
            ["fc1/one_shot_ks_loss_sensitivity/sparsity_placeholder";
             "fc1/one_shot_ks_loss_sensitivity/Const";
             "fc1/mask"; "fc1/update";
             "fc2/one_shot_ks_loss_sensitivity/sparsity_placeholder";
             "fc2/one_shot_ks_loss_sensitivity/Const"]%string.
Proof.
  assert (ks_loss_sensitivity_op_vars (builder (Some "fc2"%string)) [] None
            ["fc1"; "fc2"; "fc3"]%string (MaskName "unstructured")
          = (["fc1/one_shot_ks_loss_sensitivity/sparsity_placeholder";
              "fc1/one_shot_ks_loss_sensitivity/Const";
              "fc1/mask"; "fc1/update";
              "fc2/one_shot_ks_loss_sensitivity/sparsity_placeholder";
              "fc2/one_shot_ks_loss_sensitivity/Const"]%string,
             inl (EngineError "create_op_pruning failed"))) as H
    by reflexivity.
  split; [exact H|].
  destruct (op_vars_failure_cases _ _ _ _ _ _ _ H)
    as [[Hmc _] | [(mc & _ & Hops & _) |
                   (mc & pre & x & post & made & g1 & _ & Hops & Hall & Hf)]].
  - discriminate Hmc.
  - discriminate Hops.
  - exists mc, pre, x, post, made, g1. auto.
Defined.

End OpVarsTheorems.

(** ** The pruning schedule *)

Section ModifierFacts.
Import Py Modifier.
Local Open Scope Q_scope.









(** *** Interpolation *)













(** *** Updates *)

















End ModifierFacts.

Section ModifierExamples.
Import Py Modifier.
Local Open Scope Q_scope.


(** C1, as stated, fails on a modifier with a negative [start_epoch] as
    well: the test takes epoch 0 for its first update and asserts that the
    modifier is ready there, and 0 is neither [start_epoch] nor
    [end_epoch] nor past [start_epoch] by a whole number of update
    frequencies that the schedule allows. *)
Lemma update_ready_negative_start_example :
  update_ready (Lifecycle.constant_unscheduled (-1) (-1) (-1)) 0 10 = true /\
  ~ (0 == start_epoch (Lifecycle.constant_unscheduled (-1) (-1) (-1))) /\
  ~ (0 <= end_epoch (Lifecycle.constant_unscheduled (-1) (-1) (-1))) /\
  ~ (-1 < update_frequency (Lifecycle.constant_unscheduled (-1) (-1) (-1))).
Proof.
  split; [reflexivity|]. split; [discriminate|]. split; intros H.
  - apply Qle_bool_iff in H. discriminate.
  - apply Qlt_bool_iff in H. discriminate.
Qed.




(** With [start_epoch = end_epoch] the one ready update is the update at
    [start_epoch]: it applies [init_sparsity], not [final_sparsity]. *)
Lemma gradual_schedule_single_epoch_example :
  exists m0 m m',
    create GMPruning 5 5 1 (1 # 10) (9 # 10) linear false false = inr m0 /\
    initialize m0 ["seq.fc1.weight"%string] = inr m /\
    scheduled_update (fun p => p) m (end_epoch m) 10 = inr m' /\
    applied_sparsity m' = Some (init_sparsity m) /\
    ~ (init_sparsity m == final_sparsity m).
Proof.
  do 3 eexists.
  split; [reflexivity|]. split; [reflexivity|]. split; [reflexivity|].
  split; [reflexivity | discriminate].
Qed.



End ModifierExamples.

(** ** The modelled schedule against the life-cycle tests *)

Section LifecycleFacts.
Import Py Modifier Lifecycle.

(** The modelled modifier passes the schedule assertions of
    [TestGMPruningModifier.test_lifecycle] on its configurations. *)
Lemma gm_lifecycle_passes :
  forallb (gm_test_lifecycle (fun p => p) 10) gm_cases = true.
Proof. vm_compute. reflexivity. Qed.

(** It passes [TestConstantPruningModifier.test_lifecycle] with
    [start_epoch = 10] and [end_epoch = 25]. *)
Lemma constant_lifecycle_passes :
  constant_test_lifecycle (fun p => p) 10 constant_case = true.
Proof. vm_compute. reflexivity. Qed.

(** It passes that test whenever [start_epoch] and [end_epoch] are both
    negative, whatever the update frequency: the first update is then
    taken at epoch 0, and nothing is asserted after it. *)
Lemma constant_lifecycle_passes_unscheduled (icurve : Q -> Q) (steps : Z)
    (start_ end_ frequency : Q) :
  (start_ < 0)%Q -> (end_ < 0)%Q ->
  constant_test_lifecycle icurve steps
    (constant_unscheduled start_ end_ frequency) = true.
Proof.
  intros Hs He.
  assert (Qle_bool 0 start_ = false) as Hs'
    by (apply not_true_is_false; rewrite Qle_bool_iff; lra).
  assert (Qle_bool 0 end_ = false) as He'
    by (apply not_true_is_false; rewrite Qle_bool_iff; lra).
  assert (update_ready (constant_unscheduled start_ end_ frequency) 0 steps
          = true) as Hr.
  { unfold update_ready, starts_at_once, Py.Qlt_bool. cbn. rewrite Hs'.
    cbn. now rewrite !orb_true_r. }
  unfold constant_test_lifecycle, updated, scheduled_update.
  change (start_epoch (constant_unscheduled start_ end_ frequency))
    with start_.
  rewrite Hs'. cbn [andb]. rewrite Hr.
  cbn. now rewrite He'.
Qed.

(** The layer-ablation variant passes the readiness assertions of
    [TestLayerPruningModifier.test_lifecycle]: it is ready every tenth of
    an epoch up to [end_epoch]. *)
Lemma layer_lifecycle_passes :
  forallb (layer_test_lifecycle (fun p => p) 10) layer_cases = true.
Proof. vm_compute. reflexivity. Qed.

(** A layer-ablation variant that were ready only at the boundaries of
    the other variants would fail that test. *)
Lemma layer_lifecycle_needs_every_step :
  layer_test_lifecycle (fun p => p) 10
    (bound GMPruning 10 25 1 0 0 linear false) = false.
Proof. vm_compute. reflexivity. Qed.

End LifecycleFacts.

(** ** What the life-cycle test can tell *)

Section GmChecksFacts.
Import Py GmChecks.
Import PrimFloat.

Lemma gm_steps_ascending (start freq : float) (shown : list Q) :
  forall epoch last,
    gm_steps_ok false start freq epoch last shown = true
    <-> Sorted Qlt (last :: shown).
Proof.
  induction shown as [|a shown IH]; intros epoch last; cbn [gm_steps_ok].
  - split; [repeat constructor | reflexivity].
  - unfold gm_step_ok. cbn [negb]. rewrite andb_true_iff, IH, Qlt_bool_iff.
    split.
    + intros [Hlt Hs]. constructor; [exact Hs | now constructor].
    + intros H. inversion H as [|? ? Hs Hhd]; subst.
      inversion Hhd; subst. split; assumption.
Qed.

Lemma even_next (n : nat) :
  Z.even (Z.of_nat (S n)) = negb (Z.even (Z.of_nat n)).
Proof. now rewrite Nat2Z.inj_succ, Z.even_succ, Z.negb_even. Qed.

Lemma gm_steps_alternate (start freq : float) (shown : list Q) :
  forall (n : nat) epoch last,
    pass_indices start freq epoch (List.length shown)
    = exact_indices n (List.length shown) ->
    (gm_steps_ok true start freq epoch last shown = true
     <-> alternates (Z.even (Z.of_nat n)) last shown).
Proof.
  induction shown as [|a shown IH]; intros n epoch last Hidx;
    cbn [gm_steps_ok alternates]; [tauto|].
  unfold exact_indices in Hidx.
  cbn [List.length pass_indices List.seq List.map] in Hidx.
  injection Hidx as Hhd Htl.
  unfold gm_step_ok. cbn [negb]. rewrite Hhd, andb_true_iff.
  rewrite (IH (S n) _ a Htl), even_next.
  destruct (Z.even (Z.of_nat n)); cbn [negb].
  - now rewrite Qle_bool_iff.
  - now rewrite Qeq_bool_iff.
Qed.

Lemma alternates_from_zero (shown : list Q) :
  (forall last, alternates false last shown <-> zero_every_other false shown)
  /\ (forall last, (last == 0)%Q ->
        (alternates true last shown <-> zero_every_other true shown)).
Proof.
  induction shown as [|a shown [IHoff IHon]];
    cbn [alternates zero_every_other negb]; [tauto|].
  split.
  - intros last. split; intros [Ha H]; (split; [exact Ha|]);
      now apply (IHon a Ha).
  - intros last Hl. rewrite Hl, (IHoff a). tauto.
Qed.

(** X16.  What the loop of [TestGMPruningModifier.test_lifecycle] asserts
    on the sparsities a modifier shows after the updates of the loop.  For
    a modifier that is not phased the loop passes exactly when each
    sparsity is strictly above the one before it, beginning with
    [init_sparsity].  For a phased modifier, when the float arithmetic on
    the epochs is exact, so that the pass number [k] computes the interval
    index [k] (as with whole-number epochs and frequencies, and unlike a
    frequency of 0.1), it passes exactly when the sparsities are
    alternately zero (first) and non-negative: after an off interval
    [last_sparsity] is 0, so two on values are never compared with each
    other and on values that decrease pass as well. *)
Theorem gm_lifecycle_checks (start freq epoch : float) (last : Q)
    (shown : list Q) :
  pass_indices start freq epoch (List.length shown)
  = exact_indices 1 (List.length shown) ->
  (gm_steps_ok false start freq epoch last shown = true
   <-> Sorted Qlt (last :: shown)) /\
  (gm_steps_ok true start freq epoch last shown = true
   <-> zero_every_other false shown).
Proof.
  intros Hidx. split.
  - apply gm_steps_ascending.
  - rewrite (gm_steps_alternate start freq shown 1 epoch last Hidx).
    apply (proj1 (alternates_from_zero shown)).
Qed.

(** The phased configuration of the test (start 10, frequency 2, sparsity
    0.9) with on values that go down. *)
Lemma gm_lifecycle_checks_witness :
  pass_indices 10 2 10 7 = exact_indices 1 7 /\
  gm_steps_ok true 10 2 10 (9 # 10)
    [0; 9 # 10; 0; 1 # 2; 0; 1 # 10; 0]%Q = true.
Proof.
  assert (pass_indices 10 2 10 7 = exact_indices 1 7) as H
    by (vm_compute; reflexivity).
  split; [exact H|].
  apply (proj2 (gm_lifecycle_checks 10 2 10 (9 # 10)
                  [0; 9 # 10; 0; 1 # 2; 0; 1 # 10; 0]%Q H)).
  cbn [zero_every_other negb].
  repeat split; try reflexivity; apply Qle_bool_iff; reflexivity.
Defined.

(** With a frequency of 0.1 the arithmetic is not exact: six additions of
    0.1 give a quotient just below 6, so the sixth pass computes the
    interval index 5 again and asks for a zero twice in a row; a run that
    alternates does not pass. *)
Lemma gm_tenth_frequency_example :
  pass_indices 0 (1 / 10) 0 6
  = [Some 1; Some 2; Some 3; Some 4; Some 5; Some 5]%Z /\
  gm_steps_ok true 0 (1 / 10) 0 (9 # 10)
    [0; 9 # 10; 0; 9 # 10; 0; 9 # 10]%Q = false /\
  gm_steps_ok true 0 (1 / 10) 0 (9 # 10)
    [0; 9 # 10; 0; 9 # 10; 0; 0]%Q = true.
Proof. repeat split; vm_compute; reflexivity. Qed.

End GmChecksFacts.

(** ** The checkpoint state *)

Section StateDictFacts.
Import Py StateDict.

Lemma string_length_append (s t : string) :
  String.length (String.append s t) = (String.length s + String.length t)%nat.
Proof.
  induction s as [|c s IH]; [reflexivity|].
  change (String.append (String c s) t) with (String c (String.append s t)).
  cbn [String.length Nat.add]. f_equal. exact IH.
Qed.

Lemma string_append_inv_r (t : string) :
  forall s1 s2, String.append s1 t = String.append s2 t -> s1 = s2.
Proof.
  induction s1 as [|c s1 IH]; intros [|c2 s2] H.
  - reflexivity.
  - apply (f_equal String.length) in H.
    rewrite !string_length_append in H. cbn [String.length] in H. lia.
  - apply (f_equal String.length) in H.
    rewrite !string_length_append in H. cbn [String.length] in H. lia.
  - change (String c (String.append s1 t) = String c2 (String.append s2 t))
      in H.
    injection H as -> H. f_equal. now apply IH.
Qed.

#[local] Instance mask_key_inj : Inj (=) (=) mask_key.
Proof. intros s1 s2 H. now apply string_append_inv_r in H. Qed.

Lemma zeroed_all_zero (mask : list Q) :
  all_zero (List.map (fun v => (v * 0)%Q) mask).
Proof.
  unfold all_zero. apply List.Forall_map, List.Forall_forall.
  intros v _. cbv beta. lra.
Qed.

Lemma apply_mask_zero (param mask : list Q) :
  List.length param = List.length mask -> all_zero mask ->
  all_zero (apply_mask param mask).
Proof.
  unfold all_zero, apply_mask. revert mask.
  induction param as [|p param IH]; intros [|z mask] Hlen Hz; cbn;
    try constructor; try discriminate.
  - inversion Hz as [|? ? Hz0 _]; subst. rewrite Hz0. lra.
  - inversion Hz; subst. apply IH; [now injection Hlen | assumption].
Qed.

Lemma apply_mask_length (param mask : list Q) :
  List.length param = List.length mask ->
  List.length (apply_mask param mask) = List.length param.
Proof. intros H. unfold apply_mask. now apply length_zip_with_l_eq. Qed.

Lemma zero_masks_lookup (b : Bound) (name : string) :
  zero_masks (state_dict b) !! mask_key name
  = List.map (fun v => (v * 0)%Q) <$> param_masks b !! name.
Proof.
  unfold zero_masks, state_dict. rewrite lookup_fmap.
  rewrite (lookup_kmap mask_key). reflexivity.
Qed.

(** The loop of [load_state_dict] over masks that are all zero. *)
Lemma load_loop_zero (sd : gmap string (list Q)) (names : list string) :
  forall b : Bound,
    (forall name, name ∈ names ->
       exists param mask,
         named_parameters b !! name = Some param /\
         sd !! mask_key name = Some mask /\
         List.length param = List.length mask /\ all_zero mask) ->
    exists b',
      load_loop names sd b = inr b' /\
      (forall name, name ∈ names ->
         exists t, named_parameters b' !! name = Some t /\ all_zero t) /\
      (forall name t, named_parameters b !! name = Some t ->
         exists t', named_parameters b' !! name = Some t' /\
                    List.length t' = List.length t /\
                    (all_zero t -> all_zero t')).
Proof.
  induction names as [|n names IH]; intros b Hpre.
  - exists b. split; [reflexivity|]. split.
    + intros name Hin. inversion Hin.
    + intros name t Ht. exists t. auto.
  - destruct (Hpre n) as (p & z & Hp & Hz & Hlen & Hzero);
      [apply elem_of_cons; now left|].
    cbn [load_loop]. rewrite Hz. unfold set_param_mask. rewrite Hp.
    apply Nat.eqb_eq in Hlen as Heqb. rewrite Heqb.
    set (b1 := {| named_parameters :=
                    <[n := apply_mask p z]> (named_parameters b);
                  managed := managed b;
                  param_masks := <[n := z]> (param_masks b) |}).
    destruct (IH b1) as (b' & Hload & Hnames & Hkeep).
    { intros name Hin.
      destruct (Hpre name) as (p' & z' & Hp' & Hz' & Hlen' & Hzero');
        [apply elem_of_cons; now right|].
      destruct (decide (n = name)) as [->|Hne].
      - exists (apply_mask p z), z. cbn. rewrite lookup_insert_eq.
        rewrite apply_mask_length by assumption. auto.
      - exists p', z'. cbn. rewrite lookup_insert_ne by assumption. auto. }
    exists b'. split; [exact Hload|]. split.
    + intros name Hin. apply elem_of_cons in Hin as [->|Hin];
        [|now apply Hnames].
      destruct (Hkeep n (apply_mask p z)) as (t' & Ht' & _ & Hz');
        [cbn; apply lookup_insert_eq|].
      exists t'. split; [exact Ht'|]. apply Hz'.
      now apply apply_mask_zero.
    + intros name t Ht.
      destruct (decide (n = name)) as [->|Hne].
      * destruct (Hkeep name (apply_mask p z)) as (t' & Ht' & Hl' & Hz');
          [cbn; apply lookup_insert_eq|].
        exists t'. split; [exact Ht'|].
        rewrite Hp in Ht. injection Ht as <-.
        split; [now rewrite Hl', apply_mask_length|].
        intros _. apply Hz'. now apply apply_mask_zero.
      * apply (Hkeep name t). cbn. now rewrite lookup_insert_ne.
Qed.

(** C7.  For a bound modifier whose masks fit its parameters, loading its
    own state dict with every mask multiplied by 0 succeeds, and right
    after the call every parameter of the model that has a
    ["<param_name>.sparsity_mask"] entry holds only zeros. *)
Theorem load_state_dict_zero_masks (b : Bound) :
  consistent b ->
  exists b',
    load_state_dict b (zero_masks (state_dict b)) = inr b' /\
    forall name,
      is_Some (zero_masks (state_dict b) !! mask_key name) ->
      exists t, named_parameters b' !! name = Some t /\ all_zero t.
Proof.
  intros [Hmanaged Honly]. unfold load_state_dict.
  destruct (load_loop_zero (zero_masks (state_dict b)) (managed b) b)
    as (b' & Hload & Hzero & _).
  { intros name Hin.
    destruct (Hmanaged name Hin) as (p & mask & Hp & Hm & Hlen).
    exists p, (List.map (fun v => (v * 0)%Q) mask).
    rewrite zero_masks_lookup, Hm. cbn.
    rewrite List.length_map.
    repeat split; auto using zeroed_all_zero. }
  exists b'. split; [exact Hload|].
  intros name Hsome. apply Hzero, Honly.
  rewrite zero_masks_lookup in Hsome.
  destruct (param_masks b !! name); [eauto|].
  destruct Hsome as [x Hx]. discriminate.
Qed.

End StateDictFacts.

Section StateDictExamples.
Import Py StateDict.

Lemma pruned_fc1_consistent : consistent pruned_fc1.
Proof.
  split.
  - intros name Hin. apply list_elem_of_singleton in Hin as ->.
    exists [1; -2; 3; 1 # 2]%Q, [1; 1; 0; 1]%Q.
    repeat split; reflexivity.
  - intros name [mask Hmask]. cbn in Hmask.
    apply lookup_insert_Some in Hmask as [[<- _]|[_ Hempty]].
    + apply list_elem_of_singleton. reflexivity.
    + rewrite lookup_empty in Hempty. discriminate.
Qed.

Lemma load_state_dict_zero_masks_witness :
  consistent pruned_fc1 /\
  exists b',
    load_state_dict pruned_fc1 (zero_masks (state_dict pruned_fc1)) = inr b' /\
    exists t,
      named_parameters b' !! "seq.fc1.weight"%string = Some t /\ all_zero t.
Proof.
  split; [exact pruned_fc1_consistent|].
  destruct (load_state_dict_zero_masks pruned_fc1 pruned_fc1_consistent)
    as (b' & Hload & Hzero).
  exists b'. split; [exact Hload|].
  apply Hzero. rewrite zero_masks_lookup. cbn.
  rewrite lookup_insert_eq. cbn. eauto.
Defined.

End StateDictExamples.

(** ** The parameter names the state-dict test reads back *)

Section PyStrFacts.
Import PyStr.

Lemma append_cons (c : Ascii.ascii) (s t : string) :
  String.append (String c s) t = String c (String.append s t).
Proof. reflexivity. Qed.

Lemma startswith_refl (s t : string) : startswith s (String.append s t) = true.
Proof.
  induction s as [|c s IH]; [reflexivity|].
  rewrite append_cons. cbn [startswith]. now rewrite Ascii.eqb_refl, IH.
Qed.

Lemma startswith_self (s : string) : startswith s s = true.
Proof.
  induction s as [|c s IH]; [reflexivity|].
  cbn [startswith]. now rewrite Ascii.eqb_refl, IH.
Qed.

Lemma startswith_append (p s t : string) :
  startswith p s = true -> startswith p (String.append s t) = true.
Proof.
  revert s. induction p as [|a p IH]; intros s H; [reflexivity|].
  destruct s as [|b s]; [discriminate|].
  rewrite append_cons. cbn [startswith] in H |- *.
  apply andb_true_iff in H. destruct H as [Hab Hp].
  now rewrite Hab, IH.
Qed.

(** A separator that is not at the start of [s] is not at the start of
    [s] followed by [c...] either, when [c] does not occur in it. *)
Lemma startswith_no_overlap (c : Ascii.ascii) (t : string) :
  has_char c t = false ->
  forall s u, startswith t s = false ->
    startswith t (String.append s (String c u)) = false.
Proof.
  induction t as [|b t IH]; intros Hc s u H; [discriminate|].
  cbn [has_char] in Hc. apply orb_false_iff in Hc. destruct Hc as [Hcb Hct].
  destruct s as [|d s].
  - change (String.append EmptyString (String c u)) with (String c u).
    cbn [startswith]. rewrite Ascii.eqb_sym, Hcb. reflexivity.
  - rewrite append_cons. cbn [startswith] in H |- *.
    destruct (Ascii.eqb b d); [|reflexivity]. cbn [andb] in H |- *.
    now apply IH.
Qed.

Lemma split_head_append (c : Ascii.ascii) (t : string) (name : string) :
  has_char c t = false ->
  contains (String c t) name = false ->
  split_head (String c t) (String.append name (String c t)) = name.
Proof.
  intros Hc. induction name as [|a name IH]; intros Hn.
  - change (String.append EmptyString (String c t)) with (String c t).
    change (split_head (String c t) (String c t))
      with (if startswith (String c t) (String c t) then EmptyString
            else String c (split_head (String c t) t)).
    now rewrite startswith_self.
  - cbn [contains] in Hn. apply orb_false_iff in Hn. destruct Hn as [Hs Hn].
    rewrite append_cons. cbn [split_head].
    assert (startswith (String c t)
              (String a (String.append name (String c t))) = false) as Hno.
    { cbn [startswith] in Hs |- *.
      destruct (Ascii.eqb c a); [|reflexivity]. cbn [andb] in Hs |- *.
      now apply startswith_no_overlap. }
    rewrite Hno. now rewrite IH.
Qed.

Lemma split_head_prefix (sep s : string) :
  exists rest, s = String.append (split_head sep s) rest.
Proof.
  induction s as [|c s [rest IH]]; cbn [split_head].
  - destruct (startswith sep EmptyString); now exists EmptyString.
  - destruct (startswith sep (String c s)).
    + now exists (String c s).
    + exists rest. rewrite append_cons. now rewrite <- IH.
Qed.

(** What [split(sep)[0]] returns holds no occurrence of [sep]. *)
Lemma split_head_clean (c : Ascii.ascii) (t : string) (s : string) :
  contains (String c t) (split_head (String c t) s) = false.
Proof.
  induction s as [|a s IH]; cbn [split_head].
  - destruct (startswith (String c t) EmptyString); reflexivity.
  - destruct (startswith (String c t) (String a s)) eqn:Hs; [reflexivity|].
    cbn [contains]. rewrite IH, orb_false_r.
    destruct (startswith (String c t)
                (String a (split_head (String c t) s))) eqn:Hp;
      [|reflexivity].
    destruct (split_head_prefix (String c t) s) as [rest Hrest].
    apply (startswith_append _ _ rest) in Hp.
    rewrite append_cons, <- Hrest in Hp. congruence.
Qed.

End PyStrFacts.

Section PyStrTheorems.
Import PyStr.

(** X15.  The state-dict test reads a parameter name back from its key
    ["<name>.sparsity_mask"] with [split(".sparsity_mask")[0]].  It gets
    the name back exactly when the name itself holds no [".sparsity_mask"];
    otherwise it gets a shorter string, and the parameter is not among
    those the test checks for zeros. *)
Theorem param_name_read_back (name : string) :
  param_name_of (String.append name ".sparsity_mask") = name
  <-> contains ".sparsity_mask" name = false.
Proof.
  unfold param_name_of. split.
  - intros H. rewrite <- H. apply split_head_clean.
  - intros H. now apply split_head_append.
Qed.

End PyStrTheorems.

(** ** Serialization *)

Section SerialFacts.
Import Py Modifier Serial.

Lemma tag_kind_tag (k : ModifierKind) : tag_kind (kind_tag k) = Some k.
Proof. destruct k; reflexivity. Qed.

Lemma value_inter_value (f : InterFunc) : value_inter (inter_value f) = Some f.
Proof. destruct f; reflexivity. Qed.

Lemma value_mask_value (t : MaskType) : value_mask (mask_value t) = Some t.
Proof. destruct t; reflexivity. Qed.

Lemma value_mfac_value (o : MFACOptions) : value_mfac (mfac_value o) = Some o.
Proof. destruct o; reflexivity. Qed.

Lemma value_params_value (p : ParamsSpec) :
  value_params (params_value p) = Some p.
Proof. destruct p; reflexivity. Qed.

Lemma checked_ok (s e : Q) (c : Config) :
  schedule_ok s e = true -> checked s e c = inr c.
Proof. intros H. unfold checked. now rewrite H. Qed.

(** C8.  Deserializing the serialized form of a modifier configuration
    gives the configuration back, field for field; so it does for the
    GMPruningModifier of the test, and serializing again gives the same
    mapping. *)
Theorem deserialize_serialize (c : Config) :
  config_ok c = true ->
  deserialize (serialize c) = inr c /\
  (forall c', deserialize (serialize c) = inr c' ->
     serialize c' = serialize c).
Proof.
  intros Hok.
  assert (deserialize (serialize c) = inr c) as Hround.
  { destruct c as [p s e | c | p s e f]; cbn [config_ok] in Hok;
      try (apply andb_true_iff in Hok as [Hkind Hok]).
    - unfold deserialize, serialize. cbn [tag fields]. rewrite tag_kind_tag.
      unfold get_float, get_with. cbn [lookup_field String.eqb andthen].
      cbn. rewrite value_params_value.
      now apply checked_ok.
    - destruct c as [k p i fi s e f inter mt g ph mf].
      cbn [cfg_kind cfg_start_epoch cfg_end_epoch] in *.
      unfold deserialize, serialize. cbn [tag fields].
      rewrite tag_kind_tag.
      destruct k; try discriminate;
        unfold schedule_fields, get_float, get_with, get_bool, get_optional;
        cbn -[schedule_ok checked value_params value_inter value_mask
              value_mfac params_value inter_value mask_value mfac_value];
        rewrite value_params_value, value_inter_value, value_mask_value;
        cbn -[schedule_ok checked value_mfac mfac_value];
        (destruct mf as [o|];
         cbn -[schedule_ok checked value_mfac mfac_value];
         [rewrite value_mfac_value;
          cbn -[schedule_ok checked]|]);
        now apply checked_ok.
    - unfold deserialize, serialize. cbn [tag fields]. rewrite tag_kind_tag.
      unfold get_float, get_with. cbn [lookup_field String.eqb andthen].
      cbn. rewrite value_params_value.
      now apply checked_ok. }
  split; [exact Hround|].
  intros c' Hc'. rewrite Hround in Hc'. now injection Hc' as <-.
Qed.

(** The GMPruningModifier of [test_gm_pruning_yaml]: init_sparsity 0.05,
    final_sparsity 0.8, start_epoch 5.0, end_epoch 15.0, update_frequency
    1.0, params ["re:.*weight"], inter_func cubic, mask_type filter,
    global_sparsity False. *)
Lemma deserialize_serialize_witness :
  config_ok gm_yaml = true /\
  deserialize (serialize gm_yaml) = inr gm_yaml /\
  (forall c', deserialize (serialize gm_yaml) = inr c' ->
     serialize c' = serialize gm_yaml).
Proof.
  split; [reflexivity|].
  exact (deserialize_serialize gm_yaml eq_refl).
Defined.

End SerialFacts.
